(** * Verification of [read.py]: the source collector and its formatter

    [read.py] walks a directory tree with [os.walk], prunes directories by
    name and by package marker, reads the files whose extension qualifies
    into a dict keyed by relative path, and [format_for_sharing] prints that
    dict as one delimited text.

    The embedding is shallow.  The file system is a tree of directory
    entries; a file carries what [open(..., encoding='utf-8').read()] does on
    it.  Python [str] is [string], the bytes of its UTF-8 form.  [str.lower]
    is computed on a str of ASCII characters and is taken from the
    environment, as Unicode's tables, on any other.  Paths follow the POSIX
    flavour of [pathlib]: a resolved path is the list of its components and
    [str] joins them with a slash.  [Path.suffix] is the one of Python 3.4
    to 3.13.  Symbolic links and permission errors on [stat] are outside the
    model.

    The collector is given twice.  [read_source_files] is the call on an
    output stream that takes every line.  [read_source_files_on] takes the
    stream as it is: a [print] inside an [except] clause can raise, and what
    it raises ends the call.  [main] is on a stream that takes every
    line. *)

From stdpp Require Import base strings list sorting pretty.
From Stdlib Require Import Ascii.

(** ** Strings *)

Definition nl : string := String "010"%char "".

(** [s * n] on a Python [str]. *)
Fixpoint str_mul (s : string) (n : nat) : string :=
  match n with
  | O => ""
  | S n' => s +:+ str_mul s n'
  end.

(** ["".join(l)] and [sep.join(l)]. *)
Definition join (sep : string) (l : list string) : string := String.concat sep l.

Definition lower_ascii (c : ascii) : ascii :=
  let n := nat_of_ascii c in
  if (65 <=? n)%nat && (n <=? 90)%nat then ascii_of_nat (n + 32) else c.

(** [str.lower()] on a str of ASCII characters: A-Z go to a-z. *)
Fixpoint ascii_lower (s : string) : string :=
  match s with
  | EmptyString => EmptyString
  | String c s' => String (lower_ascii c) (ascii_lower s')
  end.

(** Every character of the str is an ASCII character. *)
Fixpoint is_ascii (s : string) : bool :=
  match s with
  | EmptyString => true
  | String c s' => (nat_of_ascii c <? 128)%nat && is_ascii s'
  end.

(** [name.rfind('.')]: [None] stands for -1. *)
Fixpoint rfind_dot (s : string) : option nat :=
  match s with
  | EmptyString => None
  | String c s' =>
      match rfind_dot s' with
      | Some i => Some (S i)
      | None => if bool_decide (c = "."%char) then Some 0%nat else None
      end
  end.

(** [PurePath.suffix] applied to the final component [name]:
    [i = name.rfind('.')]; [name[i:]] if [0 < i < len(name) - 1], else ['']. *)
Definition suffix (name : string) : string :=
  match rfind_dot name with
  | Some i =>
      if (0 <? i)%nat && (i <? String.length name - 1)%nat
      then String.substring i (String.length name - i) name
      else ""
  | None => ""
  end.

(** [m.startswith(p)]. *)
Definition startswith (m p : string) : bool := String.prefix p m.

(** ** Python dict: items in insertion order, one item per key *)

Definition dict : Type := list (string * string).

(** [d[k] = v]: an existing key keeps its place, a new one goes last. *)
Fixpoint dict_set (k v : string) (d : dict) : dict :=
  match d with
  | [] => [(k, v)]
  | (k', v') :: d' =>
      if bool_decide (k' = k) then (k, v) :: d' else (k', v') :: dict_set k v d'
  end.

(** [d.get(k)]. *)
Fixpoint dict_get (k : string) (d : dict) : option string :=
  match d with
  | [] => None
  | (k', v') :: d' => if bool_decide (k' = k) then Some v' else dict_get k d'
  end.

Definition dict_keys (d : dict) : list string := d.*1.

(** ** The file system *)

(** What [with open(p, 'r', encoding='utf-8') as f: f.read()] does. *)
Inductive read_outcome : Type :=
  | ReadOk (content : string)
  | ReadUnicodeDecodeError
  | ReadException (msg : string).

(** A directory entry, as [os.scandir] lists it. *)
#[warnings="-register-all"]
Inductive entry : Type :=
  | File (name : string) (data : read_outcome)
  | Dir (name : string) (children : list entry).

(** What a resolved path refers to. *)
Inductive node : Type :=
  | NFile (data : read_outcome)
  | NDir (children : list entry).

(** The part of the environment the collector looks at: [Path.resolve]
    (components of the absolute path), [stat] on the resolved root,
    [mimetypes.guess_type], whose tables are the system's, and [str.lower]
    on a str with a character outside ASCII, whose tables are Unicode's. *)
Record environment : Type := {
  resolve : string → list string;
  stat : list string → option node;
  guess_type : string → option string;
  unicode_lower : string → string
}.

(** [s.lower()]. *)
Definition lower (env : environment) (s : string) : string :=
  if is_ascii s then ascii_lower s else unicode_lower env s.

Definition entry_name (e : entry) : string :=
  match e with File n _ | Dir n _ => n end.

(** The [dirs] and [files] of one [os.walk] step. *)
Definition dir_names (es : list entry) : list string :=
  omap (λ e, match e with Dir d _ => Some d | File _ _ => None end) es.

Definition file_entries (es : list entry) : list (string * read_outcome) :=
  omap (λ e, match e with File f data => Some (f, data) | Dir _ _ => None end) es.

(** The directory [root / d]. *)
Fixpoint subdir (es : list entry) (d : string) : option (list entry) :=
  match es with
  | [] => None
  | Dir d' ch :: es' => if bool_decide (d' = d) then Some ch else subdir es' d
  | File _ _ :: es' => subdir es' d
  end.

(** The file [root / f]. *)
Fixpoint lookup_file (es : list entry) (f : string) : option read_outcome :=
  match es with
  | [] => None
  | File f' data :: es' => if bool_decide (f' = f) then Some data else lookup_file es' f
  | Dir _ _ :: es' => lookup_file es' f
  end.

(** The directory reached from [es] along the names [q]. *)
Fixpoint dir_at (es : list entry) (q : list string) : option (list entry) :=
  match q with
  | [] => Some es
  | d :: q' =>
      match subdir es d with
      | Some ch => dir_at ch q'
      | None => None
      end
  end.

(** [str] of an absolute path and of a relative one. *)
Definition str_abs (parts : list string) : string := "/" +:+ join "/" parts.
Definition str_rel (parts : list string) : string := join "/" parts.

(** ** [read_source_files] *)

Definition default_exclude_dirs : list string :=
  [ ".git"; "node_modules"; "__pycache__"; "venv";
    "build"; "dist"; "coverage"; ".next"; ".cache";
    "lib"; ".npm"; ".yarn"; "bower_components";
    ".vscode"; ".idea"; ".vs" ].

Definition default_include_extensions : list string :=
  [ ".py"; ".js"; ".jsx"; ".ts"; ".tsx";
    ".html"; ".css"; ".scss"; ".sass";
    ".java"; ".cpp"; ".c"; ".h"; ".hpp";
    ".rb"; ".php"; ".go"; ".rs"; ".swift";
    ".json"; ".yml"; ".yaml"; ".toml";
    ".md"; ".env"; ".gitignore"; ".eslintrc";
    ".prettierrc"; ".babelrc" ].

Definition package_indicators : list string :=
  [ "package.json"; "setup.py"; "requirements.txt"; "Cargo.toml"; "go.mod" ].

Definition lock_files : list string :=
  [ "package-lock.json"; "yarn.lock"; "poetry.lock";
    "pipfile.lock"; "cargo.lock"; "go.sum" ].

(** [(Path(root) / d / marker).exists()]. *)
Definition marker_exists (es : list entry) (d marker : string) : bool :=
  match subdir es d with
  | Some ch => bool_decide (marker ∈ entry_name <$> ch)
  | None => false
  end.

(** [any(p.exists() for p in package_indicators)]. *)
Definition is_package_dir (es : list entry) (d : string) : bool :=
  existsb (marker_exists es d) package_indicators.

(** [l.remove(x)] for an [x] that is in [l]: the first occurrence goes. *)
Fixpoint list_remove_first (x : string) (l : list string) : list string :=
  match l with
  | [] => []
  | y :: l' => if bool_decide (y = x) then l' else y :: list_remove_first x l'
  end.

(** The two statements that edit [dirs] in place:
    [dirs[:] = [d for d in dirs if d not in exclude_dirs]], then
    [for dir in dirs[:]: if any(...): dirs.remove(dir)]. *)
Definition prune_dirs (exclude_dirs : list string) (es : list entry) : list string :=
  let dirs := filter (λ d, d ∉ exclude_dirs) (dir_names es) in
  foldl (λ dirs dir, if is_package_dir es dir then list_remove_first dir dirs else dirs)
        dirs dirs.

(** The state of the loop: the dict under construction, the lines printed,
    and the [root] values [os.walk] has yielded (relative to [src_path]). *)
Record state : Type := {
  code_files : dict;
  stdout : list string;
  visited : list (list string)
}.

Definition empty_state : state :=
  {| code_files := []; stdout := []; visited := [] |}.

(** The extension test of line 69. *)
Definition extension_gate (env : environment) (include_extensions : list string)
    (file : string) : bool :=
  bool_decide (lower env (suffix file) ∈ include_extensions).

(** The lock-file test of lines 62 to 66. *)
Definition lock_gate (env : environment) (file : string) : bool :=
  bool_decide (lower env file ∈ lock_files).

(** [mime_type and not mime_type.startswith('text/')]. *)
Definition mime_rejects (env : environment) (path : string) : bool :=
  match guess_type env path with
  | Some m => negb (bool_decide (m = "")) && negb (startswith m "text/")
  | None => false
  end.

(** The body of [for file in files], for the file [root / file] with
    [root = src_path / rel]. *)
Definition process_file (env : environment) (include_extensions : list string)
    (src rel : list string) (st : state) (file : string * read_outcome) : state :=
  let file_path := rel ++ [file.1] in
  if lock_gate env file.1 then st
  else if extension_gate env include_extensions file.1 then
    if mime_rejects env (str_abs (src ++ file_path)) then st
    else
      match file.2 with
      | ReadOk content =>
          {| code_files := dict_set (str_rel file_path) content (code_files st);
             stdout := stdout st; visited := visited st |}
      | ReadUnicodeDecodeError =>
          {| code_files := code_files st;
             stdout := stdout st ++
               ["Warning: Could not read " +:+ str_abs (src ++ file_path) +:+ " as text file"];
             visited := visited st |}
      | ReadException msg =>
          {| code_files := code_files st;
             stdout := stdout st ++
               ["Error reading " +:+ str_abs (src ++ file_path) +:+ ": " +:+ msg];
             visited := visited st |}
      end
  else st.

(** The body of the loop for one yielded [root = src_path / rel]: the
    files of [root] are handled before [os.walk] goes on. *)
Definition visit (env : environment) (include_extensions : list string)
    (src rel : list string) (es : list entry) (st : state) : state :=
  foldl (process_file env include_extensions src rel)
        {| code_files := code_files st; stdout := stdout st;
           visited := visited st ++ [rel] |}
        (file_entries es).

(** [os.walk] below [root = src_path / rel], for one entry [e] of [root]:
    it descends into [e] when [e] is a directory whose name is still in
    [dirs] after the body has run, yields it, and goes on in the same way
    with its entries, in listing order. *)
Fixpoint walk_into (env : environment) (exclude_dirs include_extensions : list string)
    (src rel dirs : list string) (e : entry) (st : state) {struct e} : state :=
  match e with
  | File _ _ => st
  | Dir d ch =>
      if bool_decide (d ∈ dirs) then
        fold_left
          (λ st e', walk_into env exclude_dirs include_extensions src
                      (rel ++ [d]) (prune_dirs exclude_dirs ch) e' st)
          ch
          (visit env include_extensions src (rel ++ [d]) ch st)
      else st
  end.

(** [for root, dirs, files in os.walk(top)] with the loop body, for the
    directory [top = src_path / rel] whose listing is [es]. *)
Definition walk (env : environment) (exclude_dirs include_extensions : list string)
    (src rel : list string) (es : list entry) (st : state) : state :=
  fold_left
    (λ st e, walk_into env exclude_dirs include_extensions src rel
               (prune_dirs exclude_dirs es) e st)
    es
    (visit env include_extensions src rel es st).

Inductive result : Type :=
  | Returned (st : state)
  | RaisedFileNotFoundError (msg : string).

Definition read_source_files (env : environment) (src_path : string)
    (exclude_dirs include_extensions : option (list string)) : result :=
  let exclude_dirs := default default_exclude_dirs exclude_dirs in
  let include_extensions := default default_include_extensions include_extensions in
  let src := resolve env src_path in
  match stat env src with
  | None => RaisedFileNotFoundError ("Source directory not found: " +:+ str_abs src)
  | Some (NFile _) => Returned empty_state
  | Some (NDir es) => Returned (walk env exclude_dirs include_extensions src [] es empty_state)
  end.

(** ** [read_source_files] on an output stream that can refuse a line

    [print] writes to [sys.stdout], and a stream can refuse a line: one with
    a strict codec raises [UnicodeEncodeError] for a path that it cannot
    encode, a closed pipe raises [OSError].  The two [print] calls of the
    loop stand inside the [except] clauses, where nothing catches what they
    raise, so the exception leaves [read_source_files].  The definitions
    above are the walk on a stream that takes every line; the ones below
    take the stream as it is. *)

(** [print(line)]: [None] when the line is written, [Some msg] when [print]
    raises an exception whose [str] is [msg]. *)
Definition stream : Type := string → option string.

Inductive exception : Type :=
  | FileNotFoundError (msg : string)
  | PrintError (msg : string).

Inductive outcome : Type :=
  | Return (st : state)
  | Raise (e : exception).

(** The next statement runs only if nothing was raised. *)
Definition and_then (o : outcome) (k : state → outcome) : outcome :=
  match o with
  | Return st => k st
  | Raise e => Raise e
  end.

Definition print_line (out : stream) (line : string) (st : state) : outcome :=
  match out line with
  | None =>
      Return {| code_files := code_files st; stdout := stdout st ++ [line];
                visited := visited st |}
  | Some msg => Raise (PrintError msg)
  end.

(** The body of [for file in files], with the [print] calls of the two
    [except] clauses as they are. *)
Definition process_file_on (out : stream) (env : environment)
    (include_extensions : list string) (src rel : list string) (st : state)
    (file : string * read_outcome) : outcome :=
  let file_path := rel ++ [file.1] in
  if lock_gate env file.1 then Return st
  else if extension_gate env include_extensions file.1 then
    if mime_rejects env (str_abs (src ++ file_path)) then Return st
    else
      match file.2 with
      | ReadOk content =>
          Return {| code_files := dict_set (str_rel file_path) content (code_files st);
                    stdout := stdout st; visited := visited st |}
      | ReadUnicodeDecodeError =>
          print_line out
            ("Warning: Could not read " +:+ str_abs (src ++ file_path) +:+ " as text file")
            st
      | ReadException msg =>
          print_line out
            ("Error reading " +:+ str_abs (src ++ file_path) +:+ ": " +:+ msg)
            st
      end
  else Return st.

Definition visit_on (out : stream) (env : environment) (include_extensions : list string)
    (src rel : list string) (es : list entry) (st : state) : outcome :=
  foldl (λ o file, and_then o (λ st, process_file_on out env include_extensions src rel st file))
        (Return {| code_files := code_files st; stdout := stdout st;
                   visited := visited st ++ [rel] |})
        (file_entries es).

Fixpoint walk_into_on (out : stream) (env : environment)
    (exclude_dirs include_extensions : list string)
    (src rel dirs : list string) (e : entry) (st : state) {struct e} : outcome :=
  match e with
  | File _ _ => Return st
  | Dir d ch =>
      if bool_decide (d ∈ dirs) then
        fold_left
          (λ o e', and_then o
                     (λ st, walk_into_on out env exclude_dirs include_extensions src
                              (rel ++ [d]) (prune_dirs exclude_dirs ch) e' st))
          ch
          (visit_on out env include_extensions src (rel ++ [d]) ch st)
      else Return st
  end.

Definition walk_on (out : stream) (env : environment)
    (exclude_dirs include_extensions : list string)
    (src rel : list string) (es : list entry) (st : state) : outcome :=
  fold_left
    (λ o e, and_then o
              (λ st, walk_into_on out env exclude_dirs include_extensions src rel
                       (prune_dirs exclude_dirs es) e st))
    es
    (visit_on out env include_extensions src rel es st).

Definition read_source_files_on (out : stream) (env : environment) (src_path : string)
    (exclude_dirs include_extensions : option (list string)) : outcome :=
  let exclude_dirs := default default_exclude_dirs exclude_dirs in
  let include_extensions := default default_include_extensions include_extensions in
  let src := resolve env src_path in
  match stat env src with
  | None => Raise (FileNotFoundError ("Source directory not found: " +:+ str_abs src))
  | Some (NFile _) => Return empty_state
  | Some (NDir es) =>
      walk_on out env exclude_dirs include_extensions src [] es empty_state
  end.

(** ** [format_for_sharing] *)

(** The order of [sorted] on [(filepath, content)] tuples. *)
Definition tuple_le (a b : string * string) : Prop :=
  strict String.le a.1 b.1 ∨ (a.1 = b.1 ∧ String.le a.2 b.2).

Global Instance tuple_le_dec : RelDecision tuple_le.
Proof. intros a b. unfold tuple_le. apply _. Defined.

Definition sorted (items : list (string * string)) : list (string * string) :=
  merge_sort tuple_le items.

Definition format_for_sharing (code_files : dict) : string :=
  match code_files with
  | [] => "No code files found"
  | _ =>
      join ""
        (flat_map
           (λ item, [ nl +:+ "=== " +:+ item.1 +:+ " ===" +:+ nl;
                      item.2;
                      nl +:+ str_mul "=" 80 +:+ nl ])
           (sorted code_files))
  end.

(** ** The script *)

Definition default_src_path : string :=
  "c:/Users/macle/Desktop/Work Helper/care-home-dashboard".

Definition output_file : string := "source_code_output.txt".

(** What [with open(output_file, 'w', encoding='utf-8') as f: f.write(text)]
    does: it completes, or it raises an exception whose [str] is [msg].
    What a failed write leaves on disk is not modelled. *)
Inductive write_outcome : Type :=
  | WriteOk
  | WriteException (msg : string).

(** What a run leaves behind: the lines printed, and the name and content of
    the file whose write completed. *)
Record run : Type := {
  printed : list string;
  written : option (string * string)
}.

(** The body of [if __name__ == "__main__"]: [read_source_files()] with all
    its defaults, inside [try ... except Exception as e]. *)
Definition main (env : environment) (write : string → string → write_outcome) : run :=
  match read_source_files env default_src_path None None with
  | RaisedFileNotFoundError msg =>
      {| printed := ["Error: " +:+ msg]; written := None |}
  | Returned st =>
      let formatted_output := format_for_sharing (code_files st) in
      match write output_file formatted_output with
      | WriteOk =>
          {| printed := stdout st ++
               [ "Successfully wrote code to " +:+ output_file;
                 "Total files processed: " +:+ pretty (length (code_files st)) ];
             written := Some (output_file, formatted_output) |}
      | WriteException msg =>
          {| printed := stdout st ++ ["Error: " +:+ msg]; written := None |}
      end
  end.

(** ** Well-formed listings and the files a walk admits *)

Fixpoint contains_char (c : ascii) (s : string) : bool :=
  match s with
  | EmptyString => false
  | String c' s' => bool_decide (c' = c) || contains_char c s'
  end.

(** A name a directory listing can hold. *)
Definition valid_name (n : string) : bool :=
  negb (bool_decide (n = "")) && negb (contains_char "/" n)
  && negb (bool_decide (n = ".")) && negb (bool_decide (n = "..")).

(** Names are valid and distinct within each directory, at every depth. *)
Fixpoint wf_entry (e : entry) : bool :=
  match e with
  | File f _ => valid_name f
  | Dir d ch =>
      valid_name d && bool_decide (NoDup (entry_name <$> ch)) && forallb wf_entry ch
  end.

Definition wf_entries (es : list entry) : bool :=
  bool_decide (NoDup (entry_name <$> es)) && forallb wf_entry es.

(** Every directory on the way along [q] survives both pruning steps. *)
Fixpoint walkable (exclude_dirs : list string) (es : list entry) (q : list string) : bool :=
  match q with
  | [] => true
  | d :: q' =>
      match subdir es d with
      | Some ch =>
          bool_decide (d ∉ exclude_dirs) && negb (is_package_dir es d)
          && walkable exclude_dirs ch q'
      | None => false
      end
  end.

(** The file [src_path / rel / f] gets as far as [open]. *)
Definition passes_filters (env : environment) (include_extensions : list string)
    (src rel : list string) (f : string) : bool :=
  negb (lock_gate env f) && extension_gate env include_extensions f
  && negb (mime_rejects env (str_abs (src ++ rel ++ [f]))).

(** The [root]s that [os.walk] yields from [src_path / rel], with their
    listings, in order. *)
Fixpoint yields_into (exclude_dirs : list string) (rel dirs : list string) (e : entry)
    {struct e} : list (list string * list entry) :=
  match e with
  | File _ _ => []
  | Dir d ch =>
      if bool_decide (d ∈ dirs) then
        (rel ++ [d], ch)
          :: flat_map (yields_into exclude_dirs (rel ++ [d]) (prune_dirs exclude_dirs ch)) ch
      else []
  end.

Definition yields (exclude_dirs : list string) (rel : list string) (es : list entry)
    : list (list string * list entry) :=
  (rel, es) :: flat_map (yields_into exclude_dirs rel (prune_dirs exclude_dirs es)) es.

(** The file's extension, compared without regard to case, is one of the
    listed extensions. *)
Definition extension_listed (env : environment) (include_extensions : list string)
    (file : string) : Prop :=
  Exists (λ e, lower env e = lower env (suffix file)) include_extensions.

(** The file's name, compared without regard to case, is one of the lock
    files. *)
Definition lock_file_name (env : environment) (file : string) : Prop :=
  Exists (λ l, lower env l = lower env file) lock_files.

(** The loop body run on a sequence of yielded directories. *)
Definition visits (env : environment) (include_extensions src : list string)
    (st : state) (ys : list (list string * list entry)) : state :=
  foldl (λ st y, visit env include_extensions src y.1 y.2 st) st ys.

(** What the loop body leaves behind for a file that got as far as [open]. *)
Definition recorded (src : list string) (st : state) (path : list string)
    (data : read_outcome) : Prop :=
  match data with
  | ReadOk _ => is_Some (dict_get (str_rel path) (code_files st))
  | ReadUnicodeDecodeError =>
      ("Warning: Could not read " +:+ str_abs (src ++ path) +:+ " as text file") ∈ stdout st
  | ReadException msg =>
      ("Error reading " +:+ str_abs (src ++ path) +:+ ": " +:+ msg) ∈ stdout st
  end.

(** The line the loop body prints when the read of [src_path / path] has
    the outcome [data]. *)
Definition failure_line (src path : list string) (data : read_outcome) : option string :=
  match data with
  | ReadOk _ => None
  | ReadUnicodeDecodeError =>
      Some ("Warning: Could not read " +:+ str_abs (src ++ path) +:+ " as text file")
  | ReadException msg =>
      Some ("Error reading " +:+ str_abs (src ++ path) +:+ ": " +:+ msg)
  end.

(** The item that the file [file] of [src_path / rel] adds to the dict, and
    the line it adds to the output, if any. *)
Definition collect_file (env : environment) (include_extensions src rel : list string)
    (file : string * read_outcome) : option (string * string) :=
  if passes_filters env include_extensions src rel file.1 then
    match file.2 with
    | ReadOk content => Some (str_rel (rel ++ [file.1]), content)
    | _ => None
    end
  else None.

Definition failed_file (env : environment) (include_extensions src rel : list string)
    (file : string * read_outcome) : option string :=
  if passes_filters env include_extensions src rel file.1
  then failure_line src (rel ++ [file.1]) file.2
  else None.

(** The items and the lines of a sequence of yielded directories, in the
    order of the walk. *)
Definition collected_items (env : environment) (include_extensions src : list string)
    (ys : list (list string * list entry)) : list (string * string) :=
  ys ≫= λ y, omap (collect_file env include_extensions src y.1) (file_entries y.2).

Definition failed_lines (env : environment) (include_extensions src : list string)
    (ys : list (list string * list entry)) : list string :=
  ys ≫= λ y, omap (failed_file env include_extensions src y.1) (file_entries y.2).

(** [d.update(items)], item by item. *)
Definition dict_update (d : dict) (items : list (string * string)) : dict :=
  foldl (λ d kv, dict_set kv.1 kv.2 d) d items.

(** The message of the first line that the stream refuses. *)
Fixpoint first_refusal (out : stream) (lines : list string) : option string :=
  match lines with
  | [] => None
  | line :: rest =>
      match out line with
      | Some msg => Some msg
      | None => first_refusal out rest
      end
  end.

(** A state that is reached only if the stream takes all of [lines]. *)
Definition guard_prints (out : stream) (lines : list string) (st : state) : outcome :=
  match first_refusal out lines with
  | None => Return st
  | Some msg => Raise (PrintError msg)
  end.

(** The stream takes the line of every file of the tree that gets as far as
    [open] and whose read raises. *)
Definition takes_failure_lines (out : stream) (env : environment)
    (exclude_dirs include_extensions src : list string) (es : list entry) : Prop :=
  ∀ q ch f data x,
    walkable exclude_dirs es q = true →
    dir_at es q = Some ch → lookup_file ch f = Some data →
    passes_filters env include_extensions src q f = true →
    failure_line src (q ++ [f]) data = Some x →
    out x = None.

(** The output the specification describes, block by block. *)
Fixpoint blocks (items : list (string * string)) : string :=
  match items with
  | [] => ""
  | (path, content) :: rest =>
      nl +:+ "=== " +:+ path +:+ " ===" +:+ nl
      +:+ content +:+ nl
      +:+ "================================================================================"
      +:+ nl +:+ blocks rest
  end.

(** What follows the first component in a joined path. *)
Definition join_rest (l : list string) : string :=
  match l with
  | [] => ""
  | _ :: _ => "/" +:+ join "/" l
  end.

(** ** A small tree to run the definitions on

    The scenario of the specification, with a package directory, a lock
    file, a dot file and two unreadable files added. *)

Definition example_tree : list entry :=
  [ File "a.py" (ReadOk "x=1");
    File "b.lock" (ReadOk "pinned");
    Dir "sub"
      [ File "c.md" (ReadOk "hello");
        Dir "node_modules" [ File "d.js" (ReadOk "module.exports = 1") ] ];
    Dir "vendor"
      [ File "package.json" (ReadOk "{}");
        Dir "src" [ File "index.js" (ReadOk "export {}") ] ];
    File "Package-Lock.json" (ReadOk "{}");
    File ".gitignore" (ReadOk "dist");
    File "latin1.py" ReadUnicodeDecodeError;
    File "secret.py" (ReadException "[Errno 13] Permission denied") ].

Definition example_env : environment :=
  {| resolve := λ _, ["home"; "proj"];
     stat := λ p, if bool_decide (p = ["home"; "proj"]) then Some (NDir example_tree)
                  else if bool_decide (p = ["home"; "notes.txt"]) then Some (NFile (ReadOk "n"))
                  else None;
     guess_type := λ _, None;
     unicode_lower := λ s, s |}.

(** The same machine asked for a path that is a regular file. *)
Definition example_env_file : environment :=
  {| resolve := λ _, ["home"; "notes.txt"];
     stat := stat example_env;
     guess_type := λ _, None;
     unicode_lower := λ s, s |}.

(** The same tree on a machine whose tables take [a.py] for a program. *)
Definition example_env_mime : environment :=
  {| resolve := resolve example_env;
     stat := stat example_env;
     guess_type := λ p, if bool_decide (p = "/home/proj/a.py")
                        then Some "application/x-python" else None;
     unicode_lower := λ s, s |}.

(** Writes that complete, and writes that fail. *)
Definition example_write_ok (name text : string) : write_outcome := WriteOk.
Definition example_write_denied (name text : string) : write_outcome :=
  WriteException "[Errno 13] Permission denied: 'source_code_output.txt'".

(** A build directory: names without an extension. *)
Definition example_tree_plain : list entry :=
  [ File "Makefile" (ReadOk "all:");
    File "notes." (ReadOk "todo");
    File "main.c" (ReadOk "int main(void) { return 0; }") ].

Definition example_env_plain : environment :=
  {| resolve := λ _, ["home"; "build-tools"];
     stat := λ _, Some (NDir example_tree_plain);
     guess_type := λ _, None;
     unicode_lower := λ s, s |}.

(** A tree with a name that is not valid UTF-8 (the byte 233 after [caf]),
    and an output stream that takes ASCII lines only. *)
Definition example_tree_latin1 : list entry :=
  [ File "a.py" (ReadOk "x=1");
    File ("caf" +:+ String "233"%char ".py") ReadUnicodeDecodeError;
    File "b.py" (ReadOk "y=2") ].

Definition example_env_latin1 : environment :=
  {| resolve := λ _, ["home"; "legacy"];
     stat := λ _, Some (NDir example_tree_latin1);
     guess_type := λ _, None;
     unicode_lower := λ s, s |}.

Definition example_stream_ascii : stream :=
  λ line, if is_ascii line then None
          else Some "'ascii' codec can't encode character: ordinal not in range(128)".

Definition example_stream_all : stream := λ _, None.

(** * Proofs *)

(** ** Strings *)

Lemma lower_ascii_idemp c : lower_ascii (lower_ascii c) = lower_ascii c.
Proof. by destruct c as [[] [] [] [] [] [] [] []]. Qed.

Lemma ascii_lower_idemp s : ascii_lower (ascii_lower s) = ascii_lower s.
Proof. induction s as [|c s IH]; simpl; [done|]. by rewrite lower_ascii_idemp, IH. Qed.

Lemma string_app_nil_r s : s +:+ "" = s.
Proof. induction s as [|c s IH]; simpl; [done|]. unfold String.app in *. simpl. by rewrite IH. Qed.

Lemma string_app_assoc s1 s2 s3 : (s1 +:+ s2) +:+ s3 = s1 +:+ s2 +:+ s3.
Proof.
  unfold String.app. induction s1 as [|c s1 IH]; simpl; [done|]. by rewrite IH.
Qed.

Lemma join_cons x l : join "/" (x :: l) = x +:+ join_rest l.
Proof. destruct l; simpl; [by rewrite string_app_nil_r|done]. Qed.

Lemma app_slash_inj x x' r r' :
  contains_char "/" x = false → contains_char "/" x' = false →
  (r = "" ∨ ∃ t, r = String "/" t) → (r' = "" ∨ ∃ t, r' = String "/" t) →
  x +:+ r = x' +:+ r' → x = x' ∧ r = r'.
Proof.
  unfold String.app. revert x'.
  induction x as [|c x IH]; intros [|c' x'] Hx Hx' Hr Hr' Heq; simpl in *.
  - done.
  - destruct Hr as [->|[t ->]]; [done|].
    injection Heq as <- _. by rewrite bool_decide_eq_true_2 in Hx'.
  - destruct Hr' as [->|[t ->]]; [done|].
    injection Heq as -> _. by rewrite bool_decide_eq_true_2 in Hx.
  - injection Heq as -> Heq.
    apply orb_false_iff in Hx as [_ Hx]. apply orb_false_iff in Hx' as [_ Hx'].
    destruct (IH x' Hx Hx' Hr Hr' Heq) as [-> ->]. done.
Qed.

Lemma join_rest_shape l : join_rest l = "" ∨ ∃ t, join_rest l = String "/" t.
Proof. destruct l; [by left|right]. by eexists. Qed.

Lemma join_rest_inj l1 l2 :
  Forall (λ n, contains_char "/" n = false) l1 →
  Forall (λ n, contains_char "/" n = false) l2 →
  join_rest l1 = join_rest l2 → l1 = l2.
Proof.
  intros H1. revert l2. induction H1 as [|x l1 Hx H1 IH]; intros l2 H2 Heq.
  - destruct l2; [done|]. discriminate.
  - destruct H2 as [|y l2 Hy H2]; [discriminate|].
    unfold join_rest in Heq. rewrite !join_cons in Heq.
    injection Heq as Heq.
    destruct (app_slash_inj x y _ _ Hx Hy (join_rest_shape l1) (join_rest_shape l2) Heq)
      as [-> Hrest].
    f_equal. by apply IH.
Qed.

(** Relative paths with different components have different keys. *)
Lemma str_rel_inj p1 p2 :
  Forall (λ n, contains_char "/" n = false) p1 →
  Forall (λ n, contains_char "/" n = false) p2 →
  p1 ≠ [] → p2 ≠ [] → str_rel p1 = str_rel p2 → p1 = p2.
Proof.
  intros H1 H2 Hne1 Hne2 Heq. apply join_rest_inj; [done..|].
  destruct p1, p2; try done. unfold join_rest. unfold str_rel in Heq. by rewrite Heq.
Qed.

(** ** The dict *)

Lemma dict_get_set k k' v d :
  dict_get k' (dict_set k v d) = if bool_decide (k = k') then Some v else dict_get k' d.
Proof.
  induction d as [|[k0 v0] d IH]; simpl.
  - by rewrite bool_decide_decide.
  - destruct (decide (k0 = k)) as [->|Hne].
    + rewrite bool_decide_eq_true_2 by done. simpl.
      destruct (decide (k = k')) as [->|Hne'].
      * by rewrite !bool_decide_eq_true_2.
      * by rewrite !bool_decide_eq_false_2.
    + rewrite (bool_decide_eq_false_2 (k0 = k)) by done. simpl. rewrite IH.
      destruct (decide (k0 = k')) as [->|Hne'].
      * rewrite bool_decide_eq_true_2 by done.
        rewrite bool_decide_eq_false_2; [done|]. by intros ->.
      * by rewrite (bool_decide_eq_false_2 (k0 = k')).
Qed.

Lemma dict_get_Some_elem k v d : dict_get k d = Some v → (k, v) ∈ d.
Proof.
  induction d as [|[k0 v0] d IH]; simpl; [done|].
  case_bool_decide as Hk; intros H.
  - injection H as ->. subst. apply list_elem_of_here.
  - apply list_elem_of_further. by apply IH.
Qed.

Lemma dict_get_NoDup k v d : NoDup d.*1 → (k, v) ∈ d → dict_get k d = Some v.
Proof.
  induction d as [|[k0 v0] d IH]; simpl; intros Hnd Hin.
  - by apply elem_of_nil in Hin.
  - apply NoDup_cons in Hnd as [Hk0 Hnd].
    apply elem_of_cons in Hin as [Heq|Hin].
    + injection Heq as -> ->. by rewrite bool_decide_eq_true_2.
    + rewrite bool_decide_eq_false_2; [by apply IH|].
      intros ->. apply Hk0. apply list_elem_of_fmap. by exists (k, v).
Qed.

Lemma dict_get_None k d : dict_get k d = None ↔ k ∉ dict_keys d.
Proof.
  unfold dict_keys. induction d as [|[k0 v0] d IH]; simpl.
  - split; [intros _; apply not_elem_of_nil|done].
  - rewrite not_elem_of_cons. case_bool_decide as Hk.
    + split; [done|]. by intros [Hne _].
    + rewrite IH. split; [by split|by intros [_ ?]].
Qed.

Lemma elem_of_dict_set_keys x k v d :
  x ∈ dict_keys (dict_set k v d) ↔ x = k ∨ x ∈ dict_keys d.
Proof.
  unfold dict_keys. induction d as [|[k0 v0] d IH]; simpl.
  - rewrite list_elem_of_singleton, elem_of_nil. tauto.
  - case_bool_decide as Hk; simpl; rewrite !elem_of_cons.
    + subst. tauto.
    + rewrite IH. tauto.
Qed.

(** Assignment keeps one item per key. *)
Lemma dict_set_NoDup k v d : NoDup (dict_keys d) → NoDup (dict_keys (dict_set k v d)).
Proof.
  unfold dict_keys. induction d as [|[k0 v0] d IH]; simpl; intros Hnd.
  - apply NoDup_singleton.
  - apply NoDup_cons in Hnd as [Hfresh Hnd]. case_bool_decide as Hk; simpl.
    + subst. by apply NoDup_cons.
    + apply NoDup_cons. split; [|by apply IH].
      intros [->|Hin]%elem_of_dict_set_keys; done.
Qed.

(** ** Directory listings *)

(** Induction over an entry with the hypothesis for every child. *)
Lemma entry_ind' (P : entry → Prop) :
  (∀ f data, P (File f data)) →
  (∀ d ch, Forall P ch → P (Dir d ch)) →
  ∀ e, P e.
Proof.
  intros HFile HDir. fix IH 1. intros [f data|d ch]; [apply HFile|].
  apply HDir. induction ch as [|e ch IHch]; constructor; [apply IH|apply IHch].
Qed.

Lemma subdir_Some_elem es d ch : subdir es d = Some ch → Dir d ch ∈ es.
Proof.
  induction es as [|[f data|d' ch'] es IH]; simpl; [done|..].
  - intros H. apply list_elem_of_further. by apply IH.
  - case_bool_decide as Hd; intros H.
    + injection H as ->. subst. apply list_elem_of_here.
    + apply list_elem_of_further. by apply IH.
Qed.

Lemma subdir_NoDup es d ch :
  NoDup (entry_name <$> es) → Dir d ch ∈ es → subdir es d = Some ch.
Proof.
  induction es as [|e es IH]; simpl; intros Hnd Hin.
  - by apply elem_of_nil in Hin.
  - apply NoDup_cons in Hnd as [Hfresh Hnd].
    apply elem_of_cons in Hin as [<-|Hin].
    + by rewrite bool_decide_eq_true_2.
    + assert (entry_name e ≠ d) as Hne.
      { intros Heq. apply Hfresh. apply list_elem_of_fmap. exists (Dir d ch). by split. }
      destruct e as [f data|d' ch']; simpl in *; [by apply IH|].
      rewrite bool_decide_eq_false_2 by done. by apply IH.
Qed.

Lemma lookup_file_Some_elem es f data : lookup_file es f = Some data → File f data ∈ es.
Proof.
  induction es as [|[f' data'|d' ch'] es IH]; simpl; [done|..].
  - case_bool_decide as Hf; intros H.
    + injection H as ->. subst. apply list_elem_of_here.
    + apply list_elem_of_further. by apply IH.
  - intros H. apply list_elem_of_further. by apply IH.
Qed.

Lemma lookup_file_NoDup es f data :
  NoDup (entry_name <$> es) → File f data ∈ es → lookup_file es f = Some data.
Proof.
  induction es as [|e es IH]; simpl; intros Hnd Hin.
  - by apply elem_of_nil in Hin.
  - apply NoDup_cons in Hnd as [Hfresh Hnd].
    apply elem_of_cons in Hin as [<-|Hin].
    + by rewrite bool_decide_eq_true_2.
    + assert (entry_name e ≠ f) as Hne.
      { intros Heq. apply Hfresh. apply list_elem_of_fmap. exists (File f data). by split. }
      destruct e as [f' data'|d' ch']; simpl in *; [|by apply IH].
      rewrite bool_decide_eq_false_2 by done. by apply IH.
Qed.

Lemma elem_of_dir_names es d : d ∈ dir_names es ↔ ∃ ch, Dir d ch ∈ es.
Proof.
  unfold dir_names. rewrite list_elem_of_omap. split.
  - intros ([f data|d' ch] & Hin & Heq); simplify_eq. by exists ch.
  - intros [ch Hin]. by exists (Dir d ch).
Qed.

Lemma elem_of_file_entries es f data : (f, data) ∈ file_entries es ↔ File f data ∈ es.
Proof.
  unfold file_entries. rewrite list_elem_of_omap. split.
  - by intros ([f' data'|d' ch] & Hin & Heq); simplify_eq.
  - intros Hin. by exists (File f data).
Qed.

Lemma NoDup_dir_names es : NoDup (entry_name <$> es) → NoDup (dir_names es).
Proof.
  induction es as [|e es IH]; simpl; intros Hnd; [constructor|].
  apply NoDup_cons in Hnd as [Hfresh Hnd].
  destruct e as [f data|d ch]; unfold dir_names; simpl; [by apply IH|].
  apply NoDup_cons. split; [|by apply IH].
  intros [ch' Hin]%elem_of_dir_names. apply Hfresh.
  apply list_elem_of_fmap. by exists (Dir d ch').
Qed.

Lemma wf_entries_NoDup es : wf_entries es = true → NoDup (entry_name <$> es).
Proof. unfold wf_entries. intros [H _]%andb_true_iff. by apply bool_decide_eq_true in H. Qed.

Lemma wf_entries_elem es e : wf_entries es = true → e ∈ es → wf_entry e = true.
Proof.
  unfold wf_entries. intros [_ H]%andb_true_iff Hin.
  rewrite forallb_forall in H. apply H. by apply list_elem_of_In.
Qed.

Lemma wf_entries_subdir es d ch :
  wf_entries es = true → subdir es d = Some ch →
  wf_entries ch = true ∧ contains_char "/" d = false.
Proof.
  intros Hwf Hsub. apply subdir_Some_elem in Hsub.
  pose proof (wf_entries_elem _ _ Hwf Hsub) as He. simpl in He.
  apply andb_true_iff in He as [[Hd Hnd]%andb_true_iff Hch].
  split; [unfold wf_entries; by rewrite Hnd, Hch|].
  unfold valid_name in Hd. repeat (apply andb_true_iff in Hd as [Hd ?]).
  by apply negb_true_iff.
Qed.

Lemma wf_entries_file es f data :
  wf_entries es = true → lookup_file es f = Some data → contains_char "/" f = false.
Proof.
  intros Hwf Hf. apply lookup_file_Some_elem in Hf.
  pose proof (wf_entries_elem _ _ Hwf Hf) as He. simpl in He.
  unfold valid_name in He. repeat (apply andb_true_iff in He as [He ?]).
  by apply negb_true_iff.
Qed.

Lemma wf_entries_dir_at es q ch :
  wf_entries es = true → dir_at es q = Some ch →
  wf_entries ch = true ∧ Forall (λ n, contains_char "/" n = false) q.
Proof.
  revert es. induction q as [|d q IH]; simpl; intros es Hwf Hq.
  - injection Hq as <-. by split.
  - destruct (subdir es d) as [ch'|] eqn:Hsub; [|done].
    destruct (wf_entries_subdir _ _ _ Hwf Hsub) as [Hwf' Hd].
    destruct (IH _ Hwf' Hq) as [? ?]. split; [done|by constructor].
Qed.

Lemma dir_at_app es q1 q2 :
  dir_at es (q1 ++ q2) = dir_at es q1 ≫= λ ch, dir_at ch q2.
Proof.
  revert es. induction q1 as [|d q1 IH]; simpl; intros es; [done|].
  destruct (subdir es d); simpl; [apply IH|done].
Qed.

(** ** Pruning *)

Lemma list_remove_first_NoDup x l :
  NoDup l →
  NoDup (list_remove_first x l) ∧ ∀ y, y ∈ list_remove_first x l ↔ y ∈ l ∧ y ≠ x.
Proof.
  induction l as [|y0 l IH]; simpl; intros Hnd.
  - split; [constructor|]. intros y. rewrite elem_of_nil. tauto.
  - apply NoDup_cons in Hnd as [Hfresh Hnd]. destruct (IH Hnd) as [IHnd IHin].
    case_bool_decide as Hy0.
    + subst y0. split; [done|]. intros y. rewrite elem_of_cons. split.
      * intros Hin. split; [by right|]. by intros ->.
      * by intros [[->|Hin] Hne].
    + split.
      * apply NoDup_cons. split; [|done]. rewrite IHin. tauto.
      * intros y. rewrite !elem_of_cons, IHin. split.
        -- intros [->|[Hin Hne]]; [by split; [left|]|by split; [right|]].
        -- intros [[->|Hin] Hne]; [by left|by right].
Qed.

Lemma prune_fold_spec (pkg : string → bool) l0 acc :
  NoDup acc →
  NoDup (foldl (λ dirs dir, if pkg dir then list_remove_first dir dirs else dirs) acc l0)
  ∧ ∀ y, y ∈ foldl (λ dirs dir, if pkg dir then list_remove_first dir dirs else dirs) acc l0
         ↔ y ∈ acc ∧ ¬ (y ∈ l0 ∧ pkg y = true).
Proof.
  revert acc. induction l0 as [|x l0 IH]; simpl; intros acc Hnd.
  - split; [done|]. intros y. rewrite elem_of_nil. tauto.
  - destruct (pkg x) eqn:Hx.
    + destruct (list_remove_first_NoDup x acc Hnd) as [Hnd' Hin'].
      destruct (IH _ Hnd') as [Hnd'' Hin'']. split; [done|].
      intros y. rewrite Hin'', Hin', elem_of_cons. split.
      * intros [[Hy Hne] Hno]. split; [done|]. intros [[->|Hy0] Hp]; tauto.
      * intros [Hy Hno]. split; [split; [done|]|].
        -- intros ->. apply Hno. by split; [left|].
        -- intros [Hy0 Hp]. apply Hno. by split; [right|].
    + destruct (IH _ Hnd) as [Hnd'' Hin'']. split; [done|].
      intros y. rewrite Hin'', elem_of_cons. split.
      * intros [Hy Hno]. split; [done|]. intros [[->|Hy0] Hp]; [congruence|tauto].
      * intros [Hy Hno]. split; [done|]. intros [Hy0 Hp]. apply Hno. by split; [right|].
Qed.

(** With distinct names, [dirs] ends up holding exactly the directories that
    are neither excluded by name nor marked as a package. *)
Lemma elem_of_prune_dirs exclude_dirs es d :
  NoDup (entry_name <$> es) →
  d ∈ prune_dirs exclude_dirs es
  ↔ d ∈ dir_names es ∧ (d ∉ exclude_dirs) ∧ is_package_dir es d = false.
Proof.
  intros Hnd. unfold prune_dirs.
  assert (NoDup (filter (λ d, d ∉ exclude_dirs) (dir_names es))) as Hf.
  { apply NoDup_filter. by apply NoDup_dir_names. }
  destruct (prune_fold_spec (is_package_dir es)
              (filter (λ d, d ∉ exclude_dirs) (dir_names es)) _ Hf) as [_ Hin].
  rewrite Hin, list_elem_of_filter. split.
  - intros [[Hex Hd] Hno]. split_and!; [done..|].
    destruct (is_package_dir es d); [|done]. exfalso. by apply Hno.
  - intros (Hd & Hex & Hp). split; [done|]. intros [_ Hp']. congruence.
Qed.

(** A file named as a package marker makes its directory a package. *)
Lemma marker_file_is_package es d ch marker data :
  subdir es d = Some ch → marker ∈ package_indicators →
  lookup_file ch marker = Some data → is_package_dir es d = true.
Proof.
  intros Hsub Hm Hf. unfold is_package_dir. apply existsb_exists.
  exists marker. split; [by apply list_elem_of_In|].
  unfold marker_exists. rewrite Hsub. apply bool_decide_eq_true.
  apply list_elem_of_fmap. exists (File marker data). split; [done|].
  by apply lookup_file_Some_elem.
Qed.


(** ** The loop body *)

Section body.
Context (env : environment) (include_extensions src : list string).

Lemma process_file_visited rel st file :
  visited (process_file env include_extensions src rel st file) = visited st.
Proof.
  unfold process_file. destruct file as [f data]; simpl.
  repeat case_match; done.
Qed.

Lemma process_file_get rel st f data k c :
  dict_get k (code_files (process_file env include_extensions src rel st (f, data))) = Some c →
  dict_get k (code_files st) = Some c
  ∨ (data = ReadOk c ∧ passes_filters env include_extensions src rel f = true
     ∧ k = str_rel (rel ++ [f])).
Proof.
  unfold process_file, passes_filters. simpl.
  destruct (lock_gate env f); [by left|].
  destruct (extension_gate env include_extensions f); [|by left].
  destruct (mime_rejects env _); [by left|].
  destruct data as [content| |msg]; simpl; [|by left..].
  rewrite dict_get_set. case_bool_decide as Hk; [|by left].
  intros [= ->]. by right.
Qed.

Lemma process_file_dom rel st file k :
  is_Some (dict_get k (code_files st)) →
  is_Some (dict_get k (code_files (process_file env include_extensions src rel st file))).
Proof.
  unfold process_file. destruct file as [f data]; simpl. intros Hk.
  repeat case_match; simpl; try done.
  rewrite dict_get_set. by case_bool_decide.
Qed.

Lemma process_file_stdout rel st file x :
  x ∈ stdout st → x ∈ stdout (process_file env include_extensions src rel st file).
Proof.
  unfold process_file. destruct file as [f data]; simpl. intros Hx.
  repeat case_match; simpl; try done; apply elem_of_app; by left.
Qed.

Lemma process_file_mono rel st file path data :
  recorded src st path data →
  recorded src (process_file env include_extensions src rel st file) path data.
Proof.
  destruct data; simpl; [apply process_file_dom|apply process_file_stdout..].
Qed.

Lemma process_file_recorded rel st f data :
  passes_filters env include_extensions src rel f = true →
  recorded src (process_file env include_extensions src rel st (f, data)) (rel ++ [f]) data.
Proof.
  unfold process_file, passes_filters. simpl.
  intros [[Hlock Hext]%andb_true_iff Hmime]%andb_true_iff.
  apply negb_true_iff in Hlock, Hmime. rewrite Hlock, Hext, Hmime.
  destruct data as [content| |msg]; simpl.
  - rewrite dict_get_set, bool_decide_eq_true_2; done.
  - apply elem_of_app. right. apply list_elem_of_singleton. done.
  - apply elem_of_app. right. apply list_elem_of_singleton. done.
Qed.

(** The same four facts for the whole [for file in files] loop. *)

Lemma files_loop_visited rel files st :
  visited (foldl (process_file env include_extensions src rel) st files) = visited st.
Proof.
  revert st. induction files as [|file files IH]; intros st; simpl; [done|].
  by rewrite IH, process_file_visited.
Qed.

Lemma files_loop_get rel files st k c :
  dict_get k (code_files (foldl (process_file env include_extensions src rel) st files))
    = Some c →
  dict_get k (code_files st) = Some c
  ∨ ∃ f, (f, ReadOk c) ∈ files
         ∧ passes_filters env include_extensions src rel f = true
         ∧ k = str_rel (rel ++ [f]).
Proof.
  revert st. induction files as [|[f data] files IH]; intros st; simpl; [by left|].
  intros [Hget|(f' & Hin & Hp & ->)]%IH.
  - apply process_file_get in Hget as [Hget|(-> & Hp & ->)]; [by left|].
    right. exists f. split; [apply list_elem_of_here|done].
  - right. exists f'. split; [by apply list_elem_of_further|done].
Qed.

Lemma files_loop_mono rel files st path data :
  recorded src st path data →
  recorded src (foldl (process_file env include_extensions src rel) st files) path data.
Proof.
  revert st. induction files as [|file files IH]; intros st Hrec; simpl; [done|].
  by apply IH, process_file_mono.
Qed.

Lemma files_loop_recorded rel files st f data :
  (f, data) ∈ files →
  passes_filters env include_extensions src rel f = true →
  recorded src (foldl (process_file env include_extensions src rel) st files)
    (rel ++ [f]) data.
Proof.
  revert st. induction files as [|file files IH]; intros st Hin Hp; simpl.
  - by apply elem_of_nil in Hin.
  - apply elem_of_cons in Hin as [<-|Hin]; [|by apply IH].
    by apply files_loop_mono, process_file_recorded.
Qed.

(** And for one visit. *)

Lemma visit_visited rel es st :
  visited (visit env include_extensions src rel es st) = visited st ++ [rel].
Proof. unfold visit. by rewrite files_loop_visited. Qed.

Lemma visit_get rel es st k c :
  dict_get k (code_files (visit env include_extensions src rel es st)) = Some c →
  dict_get k (code_files st) = Some c
  ∨ ∃ f, File f (ReadOk c) ∈ es
         ∧ passes_filters env include_extensions src rel f = true
         ∧ k = str_rel (rel ++ [f]).
Proof.
  unfold visit. intros [Hget|(f & Hin & Hp & ->)]%files_loop_get; [by left|].
  right. exists f. by rewrite <- elem_of_file_entries.
Qed.

Lemma visit_mono rel es st path data :
  recorded src st path data →
  recorded src (visit env include_extensions src rel es st) path data.
Proof.
  intros Hrec. unfold visit. apply files_loop_mono.
  by destruct data.
Qed.

Lemma visit_recorded rel es st f data :
  File f data ∈ es →
  passes_filters env include_extensions src rel f = true →
  recorded src (visit env include_extensions src rel es st) (rel ++ [f]) data.
Proof.
  intros Hin Hp. unfold visit. apply files_loop_recorded; [|done].
  by apply elem_of_file_entries.
Qed.

(** A sequence of visits. *)

Lemma visits_cons st y ys :
  visits env include_extensions src st (y :: ys)
  = visits env include_extensions src (visit env include_extensions src y.1 y.2 st) ys.
Proof. done. Qed.

Lemma visits_app st ys1 ys2 :
  visits env include_extensions src st (ys1 ++ ys2)
  = visits env include_extensions src (visits env include_extensions src st ys1) ys2.
Proof. apply foldl_app. Qed.

Lemma visits_visited ys st : visited (visits env include_extensions src st ys) = visited st ++ ys.*1.
Proof.
  unfold visits. revert st. induction ys as [|y ys IH]; intros st; simpl.
  - by rewrite app_nil_r.
  - by rewrite IH, visit_visited, <- app_assoc.
Qed.

Lemma visits_get ys st k c :
  dict_get k (code_files (visits env include_extensions src st ys)) = Some c →
  dict_get k (code_files st) = Some c
  ∨ ∃ r l f, (r, l) ∈ ys ∧ File f (ReadOk c) ∈ l
             ∧ passes_filters env include_extensions src r f = true
             ∧ k = str_rel (r ++ [f]).
Proof.
  unfold visits. revert st. induction ys as [|[r l] ys IH]; intros st; simpl; [by left|].
  intros [Hget|(r' & l' & f & Hin & Hf & Hp & ->)]%IH.
  - apply visit_get in Hget as [Hget|(f & Hf & Hp & ->)]; [by left|].
    right. exists r, l, f. split; [apply list_elem_of_here|done].
  - right. exists r', l', f. split; [by apply list_elem_of_further|done].
Qed.

Lemma visits_mono ys st path data :
  recorded src st path data → recorded src (visits env include_extensions src st ys) path data.
Proof.
  unfold visits. revert st. induction ys as [|y ys IH]; intros st Hrec; simpl; [done|].
  by apply IH, visit_mono.
Qed.

Lemma visits_recorded ys st r l f data :
  (r, l) ∈ ys → File f data ∈ l →
  passes_filters env include_extensions src r f = true →
  recorded src (visits env include_extensions src st ys) (r ++ [f]) data.
Proof.
  revert st. induction ys as [|y ys IH]; intros st Hin Hf Hp.
  - by apply elem_of_nil in Hin.
  - apply elem_of_cons in Hin as [<-|Hin]; [|by apply IH].
    apply (visits_mono ys), visit_recorded; done.
Qed.
End body.

(** ** The walk as a sequence of visits *)

Section walk.
Context (env : environment) (exclude_dirs include_extensions src : list string).

Lemma walk_into_yields e : ∀ rel dirs st,
  walk_into env exclude_dirs include_extensions src rel dirs e st
  = visits env include_extensions src st (yields_into exclude_dirs rel dirs e).
Proof.
  induction e as [f data|d ch IH] using entry_ind'; intros rel dirs st; simpl; [done|].
  case_bool_decide as Hd; [|done]. rewrite visits_cons. simpl.
  generalize (visit env include_extensions src (rel ++ [d]) ch st) as st1.
  generalize (prune_dirs exclude_dirs ch) as dirs'.
  intros dirs'. induction IH as [|e ch He _ IHch]; intros st1; simpl; [done|].
  rewrite visits_app, <- He. apply IHch.
Qed.

Lemma walk_yields rel es st :
  walk env exclude_dirs include_extensions src rel es st
  = visits env include_extensions src st (yields exclude_dirs rel es).
Proof.
  unfold walk, yields. rewrite visits_cons. simpl.
  generalize (visit env include_extensions src rel es st) as st1.
  generalize (prune_dirs exclude_dirs es) as dirs.
  intros dirs. induction es as [|e es IH]; intros st1; simpl; [done|].
  rewrite visits_app, <- walk_into_yields. apply IH.
Qed.

Lemma yields_into_Dir rel dirs d ch :
  yields_into exclude_dirs rel dirs (Dir d ch)
  = if bool_decide (d ∈ dirs) then yields exclude_dirs (rel ++ [d]) ch else [].
Proof. done. Qed.

(** [os.walk] yields exactly the directories that survive the pruning
    all the way down from the root. *)
Lemma elem_of_yields es : ∀ rel r l,
  wf_entries es = true →
  (r, l) ∈ yields exclude_dirs rel es
  ↔ ∃ q, r = rel ++ q ∧ walkable exclude_dirs es q = true ∧ dir_at es q = Some l.
Proof.
  cut (∀ e d ch, e = Dir d ch → wf_entries ch = true → ∀ rel r l,
        (r, l) ∈ yields exclude_dirs rel ch
        ↔ ∃ q, r = rel ++ q ∧ walkable exclude_dirs ch q = true ∧ dir_at ch q = Some l).
  { intros H rel r l Hwf. by apply (H (Dir "" es) "" es). }
  clear es. intros e.
  induction e as [f data|d0 ch0 IH] using entry_ind'; intros d ch Heq Hwf rel r l; [done|].
  injection Heq as -> ->. rewrite Forall_forall in IH.
  pose proof (wf_entries_NoDup _ Hwf) as Hnd.
  unfold yields. rewrite elem_of_cons, list_elem_of_In, in_flat_map. split.
  - intros [Heq|(e' & He' & Hin)].
    + injection Heq as -> ->. exists []. by rewrite app_nil_r.
    + apply list_elem_of_In in He', Hin.
      destruct e' as [f' data'|d' ch']; [by apply elem_of_nil in Hin|].
      rewrite yields_into_Dir in Hin.
      case_bool_decide as Hd'; [|by apply elem_of_nil in Hin].
      apply (elem_of_prune_dirs _ _ _ Hnd) in Hd' as (_ & Hex & Hpkg).
      pose proof (wf_entries_elem _ _ Hwf He') as Hwf'. simpl in Hwf'.
      apply andb_true_iff in Hwf' as [[_ Hnd']%andb_true_iff Hall].
      apply (IH _ He' d' ch' eq_refl) in Hin as (q' & -> & Hw & Hat);
        [|unfold wf_entries; by rewrite Hnd', Hall].
      exists (d' :: q'). rewrite <- app_assoc. split; [done|]. simpl.
      rewrite (subdir_NoDup _ _ _ Hnd He'), Hpkg, Hw.
      by rewrite bool_decide_eq_true_2.
  - intros (q & -> & Hw & Hat). destruct q as [|d' q'].
    + left. simpl in Hat. injection Hat as ->. by rewrite app_nil_r.
    + right. simpl in Hw, Hat.
      destruct (subdir ch d') as [ch'|] eqn:Hsub; [|done].
      apply andb_true_iff in Hw as [[Hex Hpkg]%andb_true_iff Hw].
      apply bool_decide_eq_true in Hex. apply negb_true_iff in Hpkg.
      pose proof (subdir_Some_elem _ _ _ Hsub) as He'.
      exists (Dir d' ch'). split; [by apply list_elem_of_In|].
      apply list_elem_of_In. rewrite yields_into_Dir.
      rewrite bool_decide_eq_true_2.
      2:{ apply (elem_of_prune_dirs _ _ _ Hnd). split_and!; [|done..].
          apply elem_of_dir_names. by exists ch'. }
      destruct (wf_entries_subdir _ _ _ Hwf Hsub) as [Hwf' _].
      apply (IH _ He' d' ch' eq_refl Hwf'). exists q'.
      by rewrite <- app_assoc.
Qed.
End walk.

(** ** What the walk returns *)

Section collected.
Context (env : environment) (exclude_dirs include_extensions src : list string).
Context (es : list entry) (Hwf : wf_entries es = true).

Let final : state :=
  walk env exclude_dirs include_extensions src [] es empty_state.

Lemma walk_visited p :
  p ∈ visited final ↔ walkable exclude_dirs es p = true ∧ is_Some (dir_at es p).
Proof using Hwf.
  unfold final. rewrite walk_yields, visits_visited.
  change (visited empty_state) with (@nil (list string)).
  rewrite app_nil_l, list_elem_of_fmap. split.
  - intros ([r l] & -> & Hin). apply elem_of_yields in Hin as (q & Heq & Hw & Hat); [|done].
    simpl in *. subst. by rewrite Hat.
  - intros [Hw [l Hat]]. exists (p, l). split; [done|].
    apply elem_of_yields; [done|]. by exists p.
Qed.

Lemma walk_get_sound k c :
  dict_get k (code_files final) = Some c →
  ∃ q ch f, walkable exclude_dirs es q = true ∧ dir_at es q = Some ch
            ∧ lookup_file ch f = Some (ReadOk c)
            ∧ passes_filters env include_extensions src q f = true
            ∧ k = str_rel (q ++ [f]).
Proof using Hwf.
  unfold final. rewrite walk_yields.
  intros [Hget|(r & l & f & Hin & Hf & Hp & ->)]%visits_get; [done|].
  apply elem_of_yields in Hin as (q & -> & Hw & Hat); [|done]. simpl in *.
  exists q, l, f. split_and!; [done..| |done|done].
  destruct (wf_entries_dir_at _ _ _ Hwf Hat) as [Hwfl _].
  by apply lookup_file_NoDup; [apply wf_entries_NoDup|].
Qed.

Lemma walk_recorded q ch f data :
  walkable exclude_dirs es q = true → dir_at es q = Some ch →
  lookup_file ch f = Some data →
  passes_filters env include_extensions src q f = true →
  recorded src final (q ++ [f]) data.
Proof using Hwf.
  intros Hw Hat Hf Hp. unfold final. rewrite walk_yields.
  apply (visits_recorded _ _ _ _ _ q ch); [|by apply lookup_file_Some_elem|done].
  apply elem_of_yields; [done|]. by exists q.
Qed.

(** Two files of the tree with the same key are the same file. *)
Lemma path_key_inj q ch f data q' ch' f' data' :
  dir_at es q = Some ch → lookup_file ch f = Some data →
  dir_at es q' = Some ch' → lookup_file ch' f' = Some data' →
  str_rel (q ++ [f]) = str_rel (q' ++ [f']) →
  q = q' ∧ f = f' ∧ ch = ch' ∧ data = data'.
Proof using Hwf.
  intros Hat Hf Hat' Hf' Hkey.
  destruct (wf_entries_dir_at _ _ _ Hwf Hat) as [Hwfc Hq].
  destruct (wf_entries_dir_at _ _ _ Hwf Hat') as [Hwfc' Hq'].
  pose proof (wf_entries_file _ _ _ Hwfc Hf) as Hfn.
  pose proof (wf_entries_file _ _ _ Hwfc' Hf') as Hfn'.
  apply str_rel_inj in Hkey.
  - apply app_inj_tail in Hkey as [-> ->]. simplify_eq. done.
  - apply Forall_app. split; [done|]. by constructor.
  - apply Forall_app. split; [done|]. by constructor.
  - by destruct q.
  - by destruct q'.
Qed.

(** A file that is pruned away, filtered out or unreadable has no entry. *)
Lemma walk_get_None q ch f data :
  dir_at es q = Some ch → lookup_file ch f = Some data →
  walkable exclude_dirs es q = false
  ∨ passes_filters env include_extensions src q f = false
  ∨ (∀ c, data ≠ ReadOk c) →
  dict_get (str_rel (q ++ [f])) (code_files final) = None.
Proof using Hwf.
  intros Hat Hf Hno.
  destruct (dict_get (str_rel (q ++ [f])) (code_files final)) as [c|] eqn:Hget; [|done].
  apply walk_get_sound in Hget as (q' & ch' & f' & Hw & Hat' & Hf' & Hp & Hkey).
  destruct (path_key_inj _ _ _ _ _ _ _ _ Hat Hf Hat' Hf' Hkey) as (-> & -> & -> & ->).
  destruct Hno as [Hno|[Hno|Hno]]; [congruence..|]. by destruct (Hno c).
Qed.

(** A file that passes every filter and is read has its entry, with its
    content. *)
Lemma walk_get_Some q ch f c :
  dir_at es q = Some ch → lookup_file ch f = Some (ReadOk c) →
  walkable exclude_dirs es q = true →
  passes_filters env include_extensions src q f = true →
  dict_get (str_rel (q ++ [f])) (code_files final) = Some c.
Proof using Hwf.
  intros Hat Hf Hw Hp.
  destruct (walk_recorded q ch f (ReadOk c) Hw Hat Hf Hp) as [c' Hget]. simpl in Hget.
  rewrite Hget. f_equal.
  apply walk_get_sound in Hget as (q' & ch' & f' & Hw' & Hat' & Hf' & Hp' & Hkey).
  destruct (path_key_inj _ _ _ _ _ _ _ _ Hat Hf Hat' Hf' Hkey) as (_ & _ & _ & Hc).
  by injection Hc.
Qed.
End collected.

(** A path with an excluded name on the way is not walkable. *)
Lemma walkable_excluded exclude_dirs es pre d post :
  d ∈ exclude_dirs → walkable exclude_dirs es (pre ++ d :: post) = false.
Proof.
  intros Hd. revert es. induction pre as [|d' pre IH]; intros es; simpl.
  - destruct (subdir es d); [|done]. by rewrite bool_decide_eq_false_2 by tauto.
  - destruct (subdir es d'); [|done]. rewrite IH. by rewrite andb_false_r.
Qed.

(** A path through a package directory is not walkable. *)
Lemma walkable_package exclude_dirs es pre par d post :
  dir_at es pre = Some par → is_package_dir par d = true →
  walkable exclude_dirs es (pre ++ d :: post) = false.
Proof.
  revert es. induction pre as [|d' pre IH]; intros es Hat Hpkg; simpl in *.
  - injection Hat as ->. destruct (subdir par d); [|done].
    by rewrite Hpkg, andb_false_r.
  - destruct (subdir es d'); [|done]. rewrite (IH _ Hat Hpkg). by rewrite andb_false_r.
Qed.

(** ** The collector *)

Lemma read_source_files_dir env src_path exclude_dirs include_extensions es :
  stat env (resolve env src_path) = Some (NDir es) →
  read_source_files env src_path exclude_dirs include_extensions
  = Returned (walk env (default default_exclude_dirs exclude_dirs)
                (default default_include_extensions include_extensions)
                (resolve env src_path) [] es empty_state).
Proof. intros Hstat. unfold read_source_files. by rewrite Hstat. Qed.

(** On a str of ASCII characters [lower] does not look at the environment. *)
Lemma lower_is_ascii env s : is_ascii s = true → lower env s = ascii_lower s.
Proof. unfold lower. by intros ->. Qed.

Lemma lower_ascii_lt c :
  (nat_of_ascii c <? 128)%nat = true → (nat_of_ascii (lower_ascii c) <? 128)%nat = true.
Proof. by destruct c as [[] [] [] [] [] [] [] []]. Qed.

Lemma is_ascii_lower s : is_ascii s = true → is_ascii (ascii_lower s) = true.
Proof.
  induction s as [|c s IH]; simpl; [done|].
  intros [Hc Hs]%andb_true_iff. by rewrite (lower_ascii_lt c Hc), (IH Hs).
Qed.

(** On ASCII, lower-casing a second time changes nothing. *)
Lemma lower_lower_ascii env s :
  is_ascii s = true → lower env (lower env s) = lower env s.
Proof.
  intros Hs. rewrite (lower_is_ascii env s Hs).
  rewrite (lower_is_ascii env _ (is_ascii_lower s Hs)). apply ascii_lower_idemp.
Qed.

Lemma extension_gate_exact env include_extensions f :
  extension_gate env include_extensions f = true
  ↔ lower env (suffix f) ∈ include_extensions.
Proof. unfold extension_gate. apply bool_decide_eq_true. Qed.

(** The gate admits only listed extensions, as soon as lower-casing the
    extension a second time changes nothing. *)
Lemma extension_gate_listed env include_extensions f :
  lower env (lower env (suffix f)) = lower env (suffix f) →
  extension_gate env include_extensions f = true →
  extension_listed env include_extensions f.
Proof.
  unfold extension_gate, extension_listed. intros Hidem Hin%bool_decide_eq_true.
  apply Exists_exists. by exists (lower env (suffix f)).
Qed.

(** The six lock files are written in lower case. *)
Lemma lock_files_lower env : Forall (λ l, lower env l = l) lock_files.
Proof. repeat constructor. Qed.

Lemma lock_file_name_gate env f : lock_file_name env f → lock_gate env f = true.
Proof.
  unfold lock_file_name, lock_gate. intros (l & Hl & Heq)%Exists_exists.
  apply bool_decide_eq_true. rewrite <- Heq.
  pose proof (lock_files_lower env) as Hlow.
  rewrite Forall_forall in Hlow. by rewrite (Hlow l Hl).
Qed.

(** A dot file has no suffix, so only an empty entry could admit it. *)
Lemma suffix_dotfile rest :
  contains_char "." rest = false → suffix (String "." rest) = "".
Proof.
  intros Hrest. unfold suffix. simpl.
  assert (rfind_dot rest = None) as ->; [|done].
  induction rest as [|c rest IH]; simpl in *; [done|].
  apply orb_false_iff in Hrest as [Hc Hrest]. rewrite (IH Hrest).
  apply bool_decide_eq_false in Hc. by rewrite bool_decide_eq_false_2.
Qed.

(** The dict that comes back has one item per key. *)
Lemma read_source_files_NoDup env src_path exclude_dirs include_extensions st :
  read_source_files env src_path exclude_dirs include_extensions = Returned st →
  NoDup (dict_keys (code_files st)).
Proof.
  unfold read_source_files.
  destruct (stat env (resolve env src_path)) as [[data|es]|]; intros [= <-];
    [apply NoDup_nil_2|].
  rewrite walk_yields. generalize (yields (default default_exclude_dirs exclude_dirs) [] es).
  assert (NoDup (dict_keys (code_files empty_state))) as Hnd by apply NoDup_nil_2.
  revert Hnd. generalize empty_state as st0.
  intros st0 Hnd ys. revert st0 Hnd. unfold visits.
  induction ys as [|[r l] ys IH]; intros st0 Hnd; simpl; [done|].
  apply IH. unfold visit.
  generalize (file_entries l) as files.
  assert (NoDup (dict_keys (code_files
            {| code_files := code_files st0; stdout := stdout st0;
               visited := visited st0 ++ [r] |}))) as Hnd' by done.
  revert Hnd'. generalize {| code_files := code_files st0; stdout := stdout st0;
                             visited := visited st0 ++ [r] |} as st1.
  intros st1 Hnd' files. revert st1 Hnd'.
  induction files as [|[f data] files IHf]; intros st1 Hnd'; simpl; [done|].
  apply IHf. unfold process_file.
  repeat case_match; simpl; try done. by apply dict_set_NoDup.
Qed.

(** *** The example tree *)

Example wf_example_tree : wf_entries example_tree = true.
Proof. by vm_compute. Qed.

Example read_source_files_example :
  read_source_files example_env "proj" None None
  = Returned
      {| code_files := [("a.py", "x=1"); ("sub/c.md", "hello")];
         stdout := [ "Warning: Could not read /home/proj/latin1.py as text file";
                     "Error reading /home/proj/secret.py: [Errno 13] Permission denied" ];
         visited := [[]; ["sub"]] |}.
Proof. reflexivity. Qed.

Example read_source_files_example_file_root :
  read_source_files example_env_file "notes.txt" None None = Returned empty_state.
Proof. reflexivity. Qed.

Example read_source_files_example_upper_case_entry :
  read_source_files example_env "proj" None (Some [".PY"])
  = Returned {| code_files := []; stdout := []; visited := [[]; ["sub"]] |}.
Proof. reflexivity. Qed.

(** *** The root *)

(** C7 as stated fails: a root that is a regular file is not a directory,
    yet nothing is raised. *)
Lemma read_source_files_not_found_counterexample :
  ¬ ∀ env src_path exclude_dirs include_extensions,
      (∃ msg, read_source_files env src_path exclude_dirs include_extensions
              = RaisedFileNotFoundError msg)
      ↔ ¬ ∃ es, stat env (resolve env src_path) = Some (NDir es).
Proof.
  intros H.
  destruct (H example_env_file "notes.txt" None None) as [_ Hraise].
  destruct Hraise as [msg Hmsg]; [|discriminate].
  intros [es Hes]. discriminate.
Qed.

(** C7, amended. [read_source_files] raises [FileNotFoundError] exactly when
    the resolved root does not exist; a root that exists and is not a
    directory gives the empty dict, and a directory gives a dict. *)
Theorem read_source_files_not_found env src_path exclude_dirs include_extensions :
  ((∃ msg, read_source_files env src_path exclude_dirs include_extensions
           = RaisedFileNotFoundError msg)
   ↔ stat env (resolve env src_path) = None)
  ∧ match stat env (resolve env src_path) with
    | None =>
        read_source_files env src_path exclude_dirs include_extensions
        = RaisedFileNotFoundError
            ("Source directory not found: " +:+ str_abs (resolve env src_path))
    | Some (NFile _) =>
        read_source_files env src_path exclude_dirs include_extensions
        = Returned empty_state
    | Some (NDir _) =>
        ∃ st, read_source_files env src_path exclude_dirs include_extensions = Returned st
    end.
Proof.
  unfold read_source_files.
  destruct (stat env (resolve env src_path)) as [[data|es]|]; (split; [split|]);
    try done; try by intros [msg Hmsg].
  - by eexists.
  - by eexists.
Qed.

(** *** Pruning of directories *)

(** C2. The walk does not descend into a directory whose name is in
    [exclude_dirs], and no file below it, at any depth and with any
    extension, is a key of the returned dict. *)
Theorem read_source_files_excluded_directory
    env src_path exclude_dirs include_extensions es pre d :
  stat env (resolve env src_path) = Some (NDir es) →
  wf_entries es = true →
  d ∈ default default_exclude_dirs exclude_dirs →
  ∃ st, read_source_files env src_path exclude_dirs include_extensions = Returned st
        ∧ (∀ post, pre ++ d :: post ∉ visited st)
        ∧ (∀ post ch f data,
             dir_at es (pre ++ d :: post) = Some ch → lookup_file ch f = Some data →
             str_rel ((pre ++ d :: post) ++ [f]) ∉ dict_keys (code_files st)).
Proof.
  intros Hstat Hwf Hd. eexists. split; [by apply read_source_files_dir|]. split.
  - intros post [Hw _]%walk_visited; [|done].
    by rewrite walkable_excluded in Hw.
  - intros post ch f data Hat Hf. apply dict_get_None.
    apply (walk_get_None _ _ _ _ _ Hwf _ ch f data Hat Hf).
    left. by apply walkable_excluded.
Qed.

Lemma read_source_files_excluded_directory_witness :
  ∃ st, read_source_files example_env "proj" None None = Returned st
        ∧ (∀ post, ["sub"] ++ "node_modules" :: post ∉ visited st)
        ∧ (∀ post ch f data,
             dir_at example_tree (["sub"] ++ "node_modules" :: post) = Some ch →
             lookup_file ch f = Some data →
             str_rel ((["sub"] ++ "node_modules" :: post) ++ [f])
               ∉ dict_keys (code_files st)).
Proof.
  apply (read_source_files_excluded_directory example_env "proj" None None
           example_tree ["sub"] "node_modules").
  - reflexivity.
  - by vm_compute.
  - apply (bool_decide_unpack _). by vm_compute.
Defined.

(** C3. A subdirectory that directly contains a file named as one of the
    package indicators is pruned before the descent: the walk never yields
    it or anything below it, and no file below it is a key of the returned
    dict. *)
Theorem read_source_files_package_boundary
    env src_path exclude_dirs include_extensions es pre d pkg marker mdata :
  stat env (resolve env src_path) = Some (NDir es) →
  wf_entries es = true →
  dir_at es (pre ++ [d]) = Some pkg →
  marker ∈ package_indicators → lookup_file pkg marker = Some mdata →
  ∃ st, read_source_files env src_path exclude_dirs include_extensions = Returned st
        ∧ (∀ post, pre ++ d :: post ∉ visited st)
        ∧ (∀ post ch f data,
             dir_at es (pre ++ d :: post) = Some ch → lookup_file ch f = Some data →
             str_rel ((pre ++ d :: post) ++ [f]) ∉ dict_keys (code_files st)).
Proof.
  intros Hstat Hwf Hpkg Hm Hmf.
  rewrite dir_at_app in Hpkg.
  destruct (dir_at es pre) as [par|] eqn:Hpar; [|done]. simpl in Hpkg.
  destruct (subdir par d) as [pkg'|] eqn:Hsub; [|done]. injection Hpkg as ->.
  pose proof (marker_file_is_package _ _ _ _ _ Hsub Hm Hmf) as His.
  eexists. split; [by apply read_source_files_dir|]. split.
  - intros post [Hw _]%walk_visited; [|done].
    by rewrite (walkable_package _ _ _ par) in Hw.
  - intros post ch f data Hat Hf. apply dict_get_None.
    apply (walk_get_None _ _ _ _ _ Hwf _ ch f data Hat Hf).
    left. by apply (walkable_package _ _ _ par).
Qed.

Lemma read_source_files_package_boundary_witness :
  ∃ st, read_source_files example_env "proj" None None = Returned st
        ∧ (∀ post, [] ++ "vendor" :: post ∉ visited st)
        ∧ (∀ post ch f data,
             dir_at example_tree ([] ++ "vendor" :: post) = Some ch →
             lookup_file ch f = Some data →
             str_rel (([] ++ "vendor" :: post) ++ [f]) ∉ dict_keys (code_files st)).
Proof.
  apply (read_source_files_package_boundary example_env "proj" None None
           example_tree [] "vendor"
           [ File "package.json" (ReadOk "{}");
             Dir "src" [ File "index.js" (ReadOk "export {}") ] ]
           "package.json" (ReadOk "{}")).
  - reflexivity.
  - by vm_compute.
  - reflexivity.
  - apply (bool_decide_unpack _). by vm_compute.
  - reflexivity.
Defined.

(** *** Filtering of files *)

(** C4. A file whose name, compared without regard to case, is one of the
    lock files is never a key of the returned dict, whatever the included
    extensions are. *)
Theorem read_source_files_lock_file
    env src_path exclude_dirs include_extensions es q ch f data :
  stat env (resolve env src_path) = Some (NDir es) →
  wf_entries es = true →
  dir_at es q = Some ch → lookup_file ch f = Some data →
  lock_file_name env f →
  ∃ st, read_source_files env src_path exclude_dirs include_extensions = Returned st
        ∧ str_rel (q ++ [f]) ∉ dict_keys (code_files st).
Proof.
  intros Hstat Hwf Hat Hf Hlock. eexists. split; [by apply read_source_files_dir|].
  apply dict_get_None. apply (walk_get_None _ _ _ _ _ Hwf q ch f data Hat Hf).
  right; left. unfold passes_filters. by rewrite (lock_file_name_gate _ _ Hlock).
Qed.

Lemma read_source_files_lock_file_witness :
  ∃ st, read_source_files example_env "proj" None None = Returned st
        ∧ str_rel ([] ++ ["Package-Lock.json"]) ∉ dict_keys (code_files st).
Proof.
  apply (read_source_files_lock_file example_env "proj" None None
           example_tree [] example_tree "Package-Lock.json" (ReadOk "{}")).
  - reflexivity.
  - by vm_compute.
  - reflexivity.
  - reflexivity.
  - apply (bool_decide_unpack _). by vm_compute.
Defined.

(** C1. A file below the root whose extension, compared without regard to
    case, is not among the included extensions has no entry in the dict
    that [read_source_files] returns.  Comparing without regard to case is
    comparing what [lower] gives; of [lower] the proof uses that applying
    it to the lower-cased extension changes nothing. *)
Theorem read_source_files_extension_gate
    env src_path exclude_dirs include_extensions es q ch f data :
  stat env (resolve env src_path) = Some (NDir es) →
  wf_entries es = true →
  dir_at es q = Some ch → lookup_file ch f = Some data →
  lower env (lower env (suffix f)) = lower env (suffix f) →
  ¬ extension_listed env (default default_include_extensions include_extensions) f →
  ∃ st, read_source_files env src_path exclude_dirs include_extensions = Returned st
        ∧ str_rel (q ++ [f]) ∉ dict_keys (code_files st).
Proof.
  intros Hstat Hwf Hat Hf Hidem Hext. eexists. split; [by apply read_source_files_dir|].
  apply dict_get_None. apply (walk_get_None _ _ _ _ _ Hwf q ch f data Hat Hf).
  right; left. unfold passes_filters.
  destruct (extension_gate env _ f) eqn:Hgate; [|by rewrite andb_false_r].
  by apply extension_gate_listed in Hgate.
Qed.

Lemma read_source_files_extension_gate_witness :
  ∃ st, read_source_files example_env "proj" None None = Returned st
        ∧ str_rel ([] ++ ["b.lock"]) ∉ dict_keys (code_files st).
Proof.
  apply (read_source_files_extension_gate example_env "proj" None None
           example_tree [] example_tree "b.lock" (ReadOk "pinned")).
  - reflexivity.
  - by vm_compute.
  - reflexivity.
  - reflexivity.
  - reflexivity.
  - apply (bool_decide_unpack _). by vm_compute.
Defined.

(** C9 as stated fails: the entries are compared as they are. *)
Lemma extension_gate_case_counterexample :
  ¬ ∀ env include_extensions f,
      extension_gate env include_extensions f = true
      ↔ extension_listed env include_extensions f.
Proof.
  intros H. destruct (H example_env [".PY"] "a.py") as [_ Hadmit].
  assert (extension_gate example_env [".PY"] "a.py" = true) as Hgate;
    [|by vm_compute in Hgate].
  apply Hadmit. apply (bool_decide_unpack _). by vm_compute.
Qed.

(** C9, amended. Only the file's extension is lower-cased: when the entries
    of [include_extensions] are all in lower case, that is, [lower] leaves
    each of them as it is, the gate admits a file
    exactly when some entry equals its extension without regard to case. *)
Theorem extension_gate_lower_case_entries env include_extensions f :
  Forall (λ e, lower env e = e) include_extensions →
  extension_gate env include_extensions f = true
  ↔ extension_listed env include_extensions f.
Proof.
  intros Hlow. split.
  { intros Hin%extension_gate_exact. apply Exists_exists.
    exists (lower env (suffix f)). split; [done|].
    rewrite Forall_forall in Hlow. by apply Hlow. }
  unfold extension_listed. intros (e & He & Heq)%Exists_exists.
  apply extension_gate_exact. rewrite <- Heq.
  rewrite Forall_forall in Hlow. by rewrite (Hlow e He).
Qed.

Lemma extension_gate_lower_case_entries_witness :
  extension_gate example_env [".py"; ".md"] "Setup.PY" = true
  ↔ extension_listed example_env [".py"; ".md"] "Setup.PY".
Proof.
  apply (extension_gate_lower_case_entries example_env [".py"; ".md"] "Setup.PY").
  apply (bool_decide_unpack _). by vm_compute.
Defined.

(** C10. A name that begins with a dot and has no other dot has the empty
    suffix, so under the default extensions the gate rejects it and the file
    is not collected, although names of that form are entries of the
    default list. *)
Theorem read_source_files_dotfile_not_collected
    env src_path exclude_dirs es q ch rest data :
  stat env (resolve env src_path) = Some (NDir es) →
  wf_entries es = true →
  dir_at es q = Some ch →
  contains_char "." rest = false →
  lookup_file ch (String "." rest) = Some data →
  suffix (String "." rest) = ""
  ∧ extension_gate env default_include_extensions (String "." rest) = false
  ∧ [".env"; ".gitignore"; ".eslintrc"; ".prettierrc"; ".babelrc"]
      ⊆ default_include_extensions
  ∧ ∃ st, read_source_files env src_path exclude_dirs None = Returned st
          ∧ str_rel (q ++ [String "." rest]) ∉ dict_keys (code_files st).
Proof.
  intros Hstat Hwf Hat Hrest Hf.
  pose proof (suffix_dotfile rest Hrest) as Hsuf.
  assert (extension_gate env default_include_extensions (String "." rest) = false)
    as Hgate.
  { unfold extension_gate. rewrite Hsuf. by vm_compute. }
  split_and!; [done..| |].
  - intros x Hx. repeat (apply elem_of_cons in Hx as [->|Hx];
              [apply (bool_decide_unpack _); by vm_compute|]).
    by apply elem_of_nil in Hx.
  - eexists. split; [by apply read_source_files_dir|].
    apply dict_get_None. apply (walk_get_None _ _ _ _ _ Hwf q ch _ data Hat Hf).
    right; left. unfold passes_filters.
    change (default default_include_extensions None) with default_include_extensions.
    by rewrite Hgate, andb_false_r.
Qed.

Lemma read_source_files_dotfile_not_collected_witness :
  suffix ".gitignore" = ""
  ∧ extension_gate example_env default_include_extensions ".gitignore" = false
  ∧ [".env"; ".gitignore"; ".eslintrc"; ".prettierrc"; ".babelrc"]
      ⊆ default_include_extensions
  ∧ ∃ st, read_source_files example_env "proj" None None = Returned st
          ∧ str_rel ([] ++ [".gitignore"]) ∉ dict_keys (code_files st).
Proof.
  apply (read_source_files_dotfile_not_collected example_env "proj" None
           example_tree [] example_tree "gitignore" (ReadOk "dist")).
  - reflexivity.
  - by vm_compute.
  - reflexivity.
  - reflexivity.
  - reflexivity.
Defined.

(** *** Files that cannot be read *)

(** On a stream that takes every line: a file that gets as far as [open]
    and whose read fails, by a decode error or by any other exception, is
    skipped with a line that names it; the call still returns, and the dict
    holds every file that passed all filters and was read, with its
    content. *)
Lemma read_source_files_read_failure_is_local
    env src_path exclude_dirs include_extensions es q ch f data :
  stat env (resolve env src_path) = Some (NDir es) →
  wf_entries es = true →
  dir_at es q = Some ch → lookup_file ch f = Some data →
  walkable (default default_exclude_dirs exclude_dirs) es q = true →
  passes_filters env (default default_include_extensions include_extensions)
    (resolve env src_path) q f = true →
  (∀ c, data ≠ ReadOk c) →
  ∃ st, read_source_files env src_path exclude_dirs include_extensions = Returned st
        ∧ (str_rel (q ++ [f]) ∉ dict_keys (code_files st))
        ∧ match data with
          | ReadOk _ => False
          | ReadUnicodeDecodeError =>
              ("Warning: Could not read " +:+ str_abs (resolve env src_path ++ q ++ [f])
                 +:+ " as text file") ∈ stdout st
          | ReadException msg =>
              ("Error reading " +:+ str_abs (resolve env src_path ++ q ++ [f])
                 +:+ ": " +:+ msg) ∈ stdout st
          end
        ∧ (∀ q' ch' f' c,
             dir_at es q' = Some ch' → lookup_file ch' f' = Some (ReadOk c) →
             walkable (default default_exclude_dirs exclude_dirs) es q' = true →
             passes_filters env (default default_include_extensions include_extensions)
               (resolve env src_path) q' f' = true →
             dict_get (str_rel (q' ++ [f'])) (code_files st) = Some c).
Proof.
  intros Hstat Hwf Hat Hf Hw Hp Hfail.
  eexists. split; [by apply read_source_files_dir|]. split_and!.
  - apply dict_get_None. apply (walk_get_None _ _ _ _ _ Hwf q ch f data Hat Hf). by right; right.
  - pose proof (walk_recorded env _ _ _ _ Hwf q ch f data Hw Hat Hf Hp) as Hrec.
    destruct data as [c| |msg]; simpl in Hrec; [by destruct (Hfail c)|done..].
  - intros q' ch' f' c Hat' Hf' Hw' Hp'. by apply (walk_get_Some _ _ _ _ _ Hwf q' ch').
Qed.

Lemma read_source_files_read_failure_is_local_witness :
  ∃ st, read_source_files example_env "proj" None None = Returned st
        ∧ (str_rel ([] ++ ["latin1.py"]) ∉ dict_keys (code_files st))
        ∧ ("Warning: Could not read "
             +:+ str_abs (resolve example_env "proj" ++ [] ++ ["latin1.py"])
             +:+ " as text file") ∈ stdout st
        ∧ (∀ q' ch' f' c,
             dir_at example_tree q' = Some ch' → lookup_file ch' f' = Some (ReadOk c) →
             walkable (default default_exclude_dirs None) example_tree q' = true →
             passes_filters example_env (default default_include_extensions None)
               (resolve example_env "proj") q' f' = true →
             dict_get (str_rel (q' ++ [f'])) (code_files st) = Some c).
Proof.
  apply (read_source_files_read_failure_is_local example_env "proj" None None
           example_tree [] example_tree "latin1.py" ReadUnicodeDecodeError).
  - reflexivity.
  - by vm_compute.
  - reflexivity.
  - reflexivity.
  - reflexivity.
  - by vm_compute.
  - discriminate.
Defined.

(** ** The formatter *)

Global Instance tuple_le_total : Total tuple_le.
Proof.
  intros [k1 v1] [k2 v2]. unfold tuple_le. simpl.
  destruct (decide (k1 = k2)) as [->|Hne].
  - destruct (total String.le v1 v2); [left|right]; by right.
  - destruct (total String.le k1 k2) as [Hle|Hle]; [left|right]; left;
      (split; [done|]); intros Hle'; apply Hne; by apply (anti_symm String.le).
Qed.

Global Instance tuple_le_trans : Transitive tuple_le.
Proof.
  intros [k1 v1] [k2 v2] [k3 v3]. unfold tuple_le. simpl.
  intros [[H12 N12]|[-> Hv12]] [[H23 N23]|[-> Hv23]].
  - left. split; [by trans k2|]. intros H31. apply N23. by trans k1.
  - left. by split.
  - left. by split.
  - right. split; [done|]. by trans v2.
Qed.

Global Instance tuple_le_antisymm : AntiSymm (=) tuple_le.
Proof.
  intros [k1 v1] [k2 v2]. unfold tuple_le. simpl.
  intros [[H12 N12]|[-> Hv12]] [[H21 N21]|[Heq Hv21]]; try done.
  - by subst.
  - f_equal. by apply (anti_symm String.le).
Qed.

Lemma sorted_Permutation d : sorted d ≡ₚ d.
Proof. apply merge_sort_Permutation. Qed.

Lemma sorted_StronglySorted d : StronglySorted tuple_le (sorted d).
Proof. apply (StronglySorted_merge_sort tuple_le). Qed.

(** With one item per key, the order of the tuples is the strict order of
    the keys. *)
Lemma sorted_keys_ascending (l : list (string * string)) :
  StronglySorted tuple_le l → NoDup l.*1 → StronglySorted (strict String.le) l.*1.
Proof.
  induction 1 as [|x l Hsorted IH Hall]; simpl; intros Hnd; [constructor|].
  apply NoDup_cons in Hnd as [Hfresh Hnd]. constructor; [by apply IH|].
  apply Forall_fmap, Forall_forall. intros y Hy. rewrite Forall_forall in Hall.
  destruct (Hall y Hy) as [Hlt|[Heq _]]; [done|].
  destruct Hfresh. rewrite Heq. apply list_elem_of_fmap. by exists y.
Qed.

Lemma join_empty_cons x l : join "" (x :: l) = x +:+ join "" l.
Proof. destruct l; simpl; [by rewrite string_app_nil_r|done]. Qed.

Lemma format_for_sharing_nonempty d :
  d ≠ [] →
  format_for_sharing d
  = join ""
      (flat_map
         (λ item, [ nl +:+ "=== " +:+ item.1 +:+ " ===" +:+ nl;
                    item.2;
                    nl +:+ str_mul "=" 80 +:+ nl ])
         (sorted d)).
Proof. by destruct d. Qed.

Lemma join_pieces_blocks l :
  join ""
    (flat_map
       (λ item : string * string,
          [ nl +:+ "=== " +:+ item.1 +:+ " ===" +:+ nl;
            item.2;
            nl +:+ str_mul "=" 80 +:+ nl ])
       l)
  = blocks l.
Proof.
  induction l as [|[k v] l IH]; [done|].
  cbn [flat_map app fst snd blocks].
  rewrite !join_empty_cons, IH, !string_app_assoc. done.
Qed.

(** Two dicts with one item per key and the same lookups hold the same
    items. *)
Lemma dict_same_Permutation (d d' : dict) :
  NoDup (dict_keys d) → NoDup (dict_keys d') →
  (∀ k, dict_get k d' = dict_get k d) → d' ≡ₚ d.
Proof.
  unfold dict_keys. intros Hnd Hnd' Hsame.
  apply NoDup_Permutation; [by apply (NoDup_fmap_1 fst)..|].
  intros [k v]. split; intros Hin.
  - apply dict_get_Some_elem. rewrite <- Hsame. by apply dict_get_NoDup.
  - apply dict_get_Some_elem. rewrite Hsame. by apply dict_get_NoDup.
Qed.

Example format_for_sharing_example :
  format_for_sharing [("sub/c.md", "hello"); ("a.py", "x=1")]
  = blocks [("a.py", "x=1"); ("sub/c.md", "hello")].
Proof. by vm_compute. Qed.

(** C5. For a dict that is not empty, [format_for_sharing] returns the
    blocks of its items in ascending order of the keys, each block being an
    empty line, the header with the path, the content as it is, a newline,
    a line of 80 equal signs and a newline; the string depends on the
    mapping only, not on the order of insertion. *)
Theorem format_for_sharing_sorted_blocks (code_files : dict) :
  code_files ≠ [] → NoDup (dict_keys code_files) →
  ∃ items,
    items ≡ₚ code_files
    ∧ StronglySorted (strict String.le) items.*1
    ∧ format_for_sharing code_files = blocks items
    ∧ ∀ other, NoDup (dict_keys other) →
               (∀ k, dict_get k other = dict_get k code_files) →
               format_for_sharing other = format_for_sharing code_files.
Proof.
  intros Hne Hnd. exists (sorted code_files). split_and!.
  - apply sorted_Permutation.
  - apply sorted_keys_ascending; [apply sorted_StronglySorted|].
    unfold dict_keys in Hnd. by rewrite (sorted_Permutation code_files).
  - by rewrite format_for_sharing_nonempty, join_pieces_blocks.
  - intros other Hnd' Hsame.
    pose proof (dict_same_Permutation _ _ Hnd Hnd' Hsame) as Hperm.
    assert (other ≠ []) as Hne'.
    { intros ->. by apply Permutation_nil_l in Hperm. }
    rewrite !format_for_sharing_nonempty by done. do 2 f_equal.
    apply (StronglySorted_unique tuple_le); [apply sorted_StronglySorted..|].
    by rewrite !sorted_Permutation.
Qed.

Lemma format_for_sharing_sorted_blocks_witness :
  ∃ items,
    items ≡ₚ [("sub/c.md", "hello"); ("a.py", "x=1")]
    ∧ StronglySorted (strict String.le) items.*1
    ∧ format_for_sharing [("sub/c.md", "hello"); ("a.py", "x=1")] = blocks items
    ∧ ∀ other, NoDup (dict_keys other) →
               (∀ k, dict_get k other = dict_get k [("sub/c.md", "hello"); ("a.py", "x=1")]) →
               format_for_sharing other
               = format_for_sharing [("sub/c.md", "hello"); ("a.py", "x=1")].
Proof.
  apply (format_for_sharing_sorted_blocks [("sub/c.md", "hello"); ("a.py", "x=1")]).
  - discriminate.
  - apply (bool_decide_unpack _). by vm_compute.
Defined.

(** C6. On the empty dict [format_for_sharing] returns the fixed sentence
    that no code files were found, which is not the empty string. *)
Theorem format_for_sharing_empty :
  format_for_sharing [] = "No code files found" ∧ format_for_sharing [] ≠ "".
Proof. by split. Qed.

(** * Further properties *)

(** ** The dict and the output as lists in walk order *)

Lemma dict_set_fresh k v d : k ∉ dict_keys d → dict_set k v d = d ++ [(k, v)].
Proof.
  unfold dict_keys. induction d as [|[k0 v0] d IH]; simpl; intros Hk; [done|].
  apply not_elem_of_cons in Hk as [Hne Hk].
  rewrite bool_decide_eq_false_2 by done. by rewrite IH.
Qed.

Lemma dict_update_fresh d items :
  NoDup (dict_keys d ++ items.*1) → dict_update d items = d ++ items.
Proof.
  unfold dict_update, dict_keys. revert d.
  induction items as [|[k v] items IH]; intros d Hnd; simpl.
  - by rewrite app_nil_r.
  - rewrite dict_set_fresh.
    + rewrite IH; [by rewrite <- app_assoc|].
      by rewrite fmap_app, <- app_assoc.
    + apply NoDup_app in Hnd as (_ & Hdisj & _). intros Hin.
      apply (Hdisj k Hin). simpl. apply list_elem_of_here.
Qed.

Section lists.
Context (env : environment) (include_extensions src : list string).

Lemma process_file_code_files rel st file :
  code_files (process_file env include_extensions src rel st file)
  = dict_update (code_files st)
      (option_list (collect_file env include_extensions src rel file)).
Proof.
  unfold process_file, collect_file, passes_filters. destruct file as [f data]. simpl.
  destruct (lock_gate env f); [done|].
  destruct (extension_gate env include_extensions f); [|done].
  destruct (mime_rejects env _); [done|].
  by destruct data.
Qed.

Lemma process_file_stdout_eq rel st file :
  stdout (process_file env include_extensions src rel st file)
  = stdout st ++ option_list (failed_file env include_extensions src rel file).
Proof.
  unfold process_file, failed_file, passes_filters. destruct file as [f data]. simpl.
  destruct (lock_gate env f); [by rewrite app_nil_r|].
  destruct (extension_gate env include_extensions f); [|by rewrite app_nil_r].
  destruct (mime_rejects env _); [by rewrite app_nil_r|].
  destruct data; simpl; [by rewrite app_nil_r|done..].
Qed.

Lemma dict_update_app d l1 l2 :
  dict_update d (l1 ++ l2) = dict_update (dict_update d l1) l2.
Proof. apply foldl_app. Qed.

Lemma files_loop_lists rel files st :
  code_files (foldl (process_file env include_extensions src rel) st files)
  = dict_update (code_files st) (omap (collect_file env include_extensions src rel) files)
  ∧ stdout (foldl (process_file env include_extensions src rel) st files)
    = stdout st ++ omap (failed_file env include_extensions src rel) files.
Proof.
  revert st. induction files as [|file files IH]; intros st; simpl.
  - by rewrite app_nil_r.
  - destruct (IH (process_file env include_extensions src rel st file)) as [-> ->].
    rewrite process_file_code_files, process_file_stdout_eq. split.
    + destruct (collect_file _ _ _ _ file); done.
    + rewrite <- app_assoc. by destruct (failed_file _ _ _ _ file).
Qed.

Lemma visits_lists ys st :
  code_files (visits env include_extensions src st ys)
  = dict_update (code_files st) (collected_items env include_extensions src ys)
  ∧ stdout (visits env include_extensions src st ys)
    = stdout st ++ failed_lines env include_extensions src ys.
Proof.
  unfold collected_items, failed_lines.
  revert st. induction ys as [|[r l] ys IH]; intros st.
  - simpl. by rewrite app_nil_r.
  - rewrite visits_cons, !bind_cons. simpl.
    destruct (IH (visit env include_extensions src r l st)) as [-> ->].
    unfold visit.
    destruct (files_loop_lists r (file_entries l)
                {| code_files := code_files st; stdout := stdout st;
                   visited := visited st ++ [r] |}) as [-> ->]. simpl.
    by rewrite dict_update_app, <- app_assoc.
Qed.
End lists.

(** ** Distinct directories, distinct keys *)

Lemma wf_entry_Dir d ch : wf_entry (Dir d ch) = true → wf_entries ch = true.
Proof.
  simpl. intros [[_ Hnd]%andb_true_iff Hall]%andb_true_iff.
  unfold wf_entries. by rewrite Hnd, Hall.
Qed.

Lemma yields_into_prefix exclude_dirs rel dirs e r l :
  wf_entry e = true → (r, l) ∈ yields_into exclude_dirs rel dirs e →
  ∃ q, r = rel ++ entry_name e :: q.
Proof.
  intros Hwf Hin. destruct e as [f data|d ch]; [by apply elem_of_nil in Hin|].
  rewrite yields_into_Dir in Hin. case_bool_decide; [|by apply elem_of_nil in Hin].
  apply elem_of_yields in Hin as (q & -> & _); [|by apply (wf_entry_Dir d)].
  exists q. by rewrite <- app_assoc.
Qed.

Lemma NoDup_yields_children exclude_dirs rel dirs l :
  NoDup (entry_name <$> l) →
  Forall (λ e, wf_entry e = true) l →
  Forall (λ e, NoDup (yields_into exclude_dirs rel dirs e).*1) l →
  NoDup (flat_map (yields_into exclude_dirs rel dirs) l).*1.
Proof.
  induction l as [|e l IH]; simpl; intros Hnd Hwf Hall; [constructor|].
  apply NoDup_cons in Hnd as [Hfresh Hnd].
  apply Forall_cons in Hwf as [Hwfe Hwf]. apply Forall_cons in Hall as [He Hall].
  rewrite fmap_app. apply NoDup_app. split_and!; [done| |by apply IH].
  intros r ([r1 l1] & -> & Hin1)%list_elem_of_fmap ([r2 l2] & Heq & Hin2)%list_elem_of_fmap.
  simpl in Heq. subst r2.
  apply list_elem_of_In, in_flat_map in Hin2 as (e' & He' & Hin2).
  apply list_elem_of_In in He', Hin2. rewrite Forall_forall in Hwf.
  apply yields_into_prefix in Hin1 as [q1 Hq1]; [|done].
  apply yields_into_prefix in Hin2 as [q2 Hq2]; [|by apply Hwf].
  simpl in Hq1. rewrite Hq1 in Hq2. apply app_inv_head in Hq2. injection Hq2 as Hname _.
  apply Hfresh. rewrite Hname. apply list_elem_of_fmap. by exists e'.
Qed.

(** [os.walk] yields no directory twice. *)
Lemma NoDup_yields exclude_dirs es :
  wf_entries es = true → ∀ rel, NoDup (yields exclude_dirs rel es).*1.
Proof.
  cut (∀ e d ch, e = Dir d ch → wf_entries ch = true →
         ∀ rel, NoDup (yields exclude_dirs rel ch).*1).
  { intros H Hwf rel. by apply (H (Dir "" es) "" es). }
  clear es. intros e.
  induction e as [f data|d0 ch0 IH] using entry_ind'; intros d ch Heq Hwf rel; [done|].
  injection Heq as -> ->. rewrite Forall_forall in IH.
  assert (Forall (λ e, wf_entry e = true) ch) as Hall.
  { apply Forall_forall. intros e He. by apply (wf_entries_elem ch). }
  unfold yields. rewrite fmap_cons. apply NoDup_cons. split.
  - intros ([r l] & Heq & Hin)%list_elem_of_fmap. simpl in Heq. subst r.
    apply list_elem_of_In, in_flat_map in Hin as (e' & He' & Hin).
    apply list_elem_of_In in He', Hin. rewrite Forall_forall in Hall.
    apply yields_into_prefix in Hin as [q Hq]; [|by apply Hall].
    rewrite <- (app_nil_r rel) in Hq at 1. by apply app_inv_head in Hq.
  - apply NoDup_yields_children; [by apply wf_entries_NoDup|done|].
    apply Forall_forall. intros [f' data'|d' ch'] He'; [constructor|].
    rewrite yields_into_Dir. case_bool_decide; [|constructor].
    apply (IH _ He' d' ch' eq_refl).
    apply (wf_entry_Dir d'). rewrite Forall_forall in Hall. by apply Hall.
Qed.

Lemma NoDup_file_names es : NoDup (entry_name <$> es) → NoDup (file_entries es).*1.
Proof.
  induction es as [|e es IH]; simpl; intros Hnd; [constructor|].
  apply NoDup_cons in Hnd as [Hfresh Hnd].
  destruct e as [f data|d ch]; unfold file_entries; simpl; [|by apply IH].
  apply NoDup_cons. split; [|by apply IH].
  intros ([f' data'] & Heq & Hin)%list_elem_of_fmap. simpl in Heq. subst f'.
  apply elem_of_file_entries in Hin. apply Hfresh.
  apply list_elem_of_fmap. by exists (File f data').
Qed.

Lemma fmap_fst_bind {A} (g : A → list (string * string)) (l : list A) :
  (l ≫= g).*1 = l ≫= λ x, (g x).*1.
Proof. induction l as [|x l IH]; [done|]. by rewrite !bind_cons, fmap_app, IH. Qed.

Section keys.
Context (env : environment) (exclude_dirs include_extensions src : list string).
Context (es : list entry) (Hwf : wf_entries es = true).

Lemma elem_of_collect_keys r l k :
  k ∈ (omap (collect_file env include_extensions src r) (file_entries l)).*1 →
  ∃ f data, File f data ∈ l ∧ k = str_rel (r ++ [f]).
Proof.
  intros ([k' v] & -> & Hin)%list_elem_of_fmap.
  apply list_elem_of_omap in Hin as ([f data] & Hin & Hc).
  apply elem_of_file_entries in Hin. exists f, data. split; [done|].
  unfold collect_file in Hc. simpl in Hc.
  destruct (passes_filters _ _ _ _ _); [|done]. destruct data; by simplify_eq.
Qed.

Lemma collect_files_NoDup r fs :
  NoDup fs.*1 →
  (∀ f f', f ∈ fs.*1 → f' ∈ fs.*1 → str_rel (r ++ [f]) = str_rel (r ++ [f']) → f = f') →
  NoDup (omap (collect_file env include_extensions src r) fs).*1.
Proof.
  induction fs as [|[f data] fs IH]; simpl; intros Hnd Hinj; [constructor|].
  apply NoDup_cons in Hnd as [Hfresh Hnd].
  assert (NoDup (omap (collect_file env include_extensions src r) fs).*1) as Hrest.
  { apply IH; [done|]. intros f1 f2 H1 H2. apply Hinj; by apply list_elem_of_further. }
  destruct (collect_file env include_extensions src r (f, data)) as [[k v]|] eqn:Hc;
    [|done].
  simpl. apply NoDup_cons. split; [|done].
  intros ([k' v'] & Heq & Hin)%list_elem_of_fmap. simpl in Heq. subst k'.
  apply list_elem_of_omap in Hin as ([f' data'] & Hin & Hc').
  assert (f' ∈ fs.*1) as Hf'. { apply list_elem_of_fmap. by exists (f', data'). }
  unfold collect_file in Hc, Hc'. simpl in Hc, Hc'.
  destruct (passes_filters _ _ _ _ f); [|done].
  destruct (passes_filters _ _ _ _ f'); [|done].
  destruct data; [|done..]. destruct data'; [|done..]. simplify_eq.
  apply Hfresh. rewrite (Hinj f f'); [done|apply list_elem_of_here| |done].
  by apply list_elem_of_further.
Qed.

(** No two collected files have the same key. *)
Lemma collected_items_NoDup :
  NoDup (collected_items env include_extensions src (yields exclude_dirs [] es)).*1.
Proof using Hwf.
  unfold collected_items. rewrite fmap_fst_bind.
  assert (∀ r l, (r, l) ∈ yields exclude_dirs [] es →
            dir_at es r = Some l ∧ wf_entries l = true) as Hy.
  { intros r l (q & Heq & _ & Hat)%elem_of_yields; [|done]. simpl in Heq. subst q.
    split; [done|]. by destruct (wf_entries_dir_at _ _ _ Hwf Hat). }
  apply NoDup_bind.
  - intros [r1 l1] [r2 l2] k Hin1 Hin2 Hk1 Hk2. simpl in *.
    destruct (Hy _ _ Hin1) as [Hat1 Hwf1]. destruct (Hy _ _ Hin2) as [Hat2 Hwf2].
    apply elem_of_collect_keys in Hk1 as (f1 & data1 & Hf1 & ->).
    apply elem_of_collect_keys in Hk2 as (f2 & data2 & Hf2 & Hkey).
    apply lookup_file_NoDup in Hf1; [|by apply wf_entries_NoDup].
    apply lookup_file_NoDup in Hf2; [|by apply wf_entries_NoDup].
    destruct (path_key_inj es Hwf _ _ _ _ _ _ _ _ Hat1 Hf1 Hat2 Hf2 Hkey)
      as (-> & _ & -> & _). done.
  - intros [r l] Hin. simpl. destruct (Hy _ _ Hin) as [Hat Hwfl].
    apply collect_files_NoDup; [by apply NoDup_file_names, wf_entries_NoDup|].
    intros f f' ([f0 data] & -> & Hf)%list_elem_of_fmap
      ([f0' data'] & -> & Hf')%list_elem_of_fmap Hkey. simpl in *.
    apply elem_of_file_entries, lookup_file_NoDup in Hf; [|by apply wf_entries_NoDup].
    apply elem_of_file_entries, lookup_file_NoDup in Hf'; [|by apply wf_entries_NoDup].
    by destruct (path_key_inj es Hwf _ _ _ _ _ _ _ _ Hat Hf Hat Hf' Hkey) as (_ & -> & _).
  - apply (NoDup_fmap_1 fst). by apply NoDup_yields.
Qed.
End keys.

(** ** The collector, exactly *)

(** The three lists of the returned state, in the order of the walk. *)
Lemma read_source_files_lists env src_path exclude_dirs include_extensions es :
  stat env (resolve env src_path) = Some (NDir es) →
  wf_entries es = true →
  ∃ st, read_source_files env src_path exclude_dirs include_extensions = Returned st
        ∧ code_files st
          = collected_items env (default default_include_extensions include_extensions)
              (resolve env src_path)
              (yields (default default_exclude_dirs exclude_dirs) [] es)
        ∧ stdout st
          = failed_lines env (default default_include_extensions include_extensions)
              (resolve env src_path)
              (yields (default default_exclude_dirs exclude_dirs) [] es)
        ∧ visited st = (yields (default default_exclude_dirs exclude_dirs) [] es).*1.
Proof.
  intros Hstat Hwf. eexists. split; [by apply read_source_files_dir|].
  rewrite walk_yields, visits_visited.
  destruct (visits_lists env (default default_include_extensions include_extensions)
              (resolve env src_path)
              (yields (default default_exclude_dirs exclude_dirs) [] es) empty_state)
    as [-> ->].
  split_and!; [|done..]. simpl.
  rewrite dict_update_fresh; [done|]. by apply collected_items_NoDup.
Qed.

(** X2. A file for which [guess_type] gives a type that is not empty and
    does not start with [text/] is never a key of the dict, whatever its
    extension. *)
Theorem read_source_files_mime_gate
    env src_path exclude_dirs include_extensions es q ch f data m :
  stat env (resolve env src_path) = Some (NDir es) →
  wf_entries es = true →
  dir_at es q = Some ch → lookup_file ch f = Some data →
  guess_type env (str_abs (resolve env src_path ++ q ++ [f])) = Some m →
  m ≠ "" → startswith m "text/" = false →
  ∃ st, read_source_files env src_path exclude_dirs include_extensions = Returned st
        ∧ str_rel (q ++ [f]) ∉ dict_keys (code_files st).
Proof.
  intros Hstat Hwf Hat Hf Hm Hne Htext. eexists. split; [by apply read_source_files_dir|].
  apply dict_get_None. apply (walk_get_None _ _ _ _ _ Hwf q ch f data Hat Hf).
  right; left. unfold passes_filters, mime_rejects. rewrite Hm, Htext.
  rewrite bool_decide_eq_false_2 by done. simpl. by rewrite andb_false_r.
Qed.

Lemma read_source_files_mime_gate_witness :
  ∃ st, read_source_files example_env_mime "proj" None None = Returned st
        ∧ str_rel ([] ++ ["a.py"]) ∉ dict_keys (code_files st).
Proof.
  apply (read_source_files_mime_gate example_env_mime "proj" None None
           example_tree [] example_tree "a.py" (ReadOk "x=1") "application/x-python").
  - reflexivity.
  - by vm_compute.
  - reflexivity.
  - reflexivity.
  - reflexivity.
  - discriminate.
  - reflexivity.
Defined.





Lemma elem_of_failed_lines env include_extensions src ys x :
  x ∈ failed_lines env include_extensions src ys
  ↔ ∃ r l f data, (r, l) ∈ ys ∧ File f data ∈ l
                  ∧ passes_filters env include_extensions src r f = true
                  ∧ failure_line src (r ++ [f]) data = Some x.
Proof.
  unfold failed_lines. rewrite list_elem_of_bind. split.
  - intros ([r l] & Hin & Hy). simpl in Hin.
    apply list_elem_of_omap in Hin as ([f data] & Hf & Hx).
    apply elem_of_file_entries in Hf. unfold failed_file in Hx. simpl in Hx.
    destruct (passes_filters _ _ _ _ _) eqn:Hp; [|done]. by exists r, l, f, data.
  - intros (r & l & f & data & Hy & Hf & Hp & Hx). exists (r, l). split; [|done].
    simpl. apply list_elem_of_omap. exists (f, data).
    split; [by apply elem_of_file_entries|]. unfold failed_file. simpl. by rewrite Hp.
Qed.

(** On a stream that takes every line, a line is printed exactly for the
    files that get as far as [open] and whose read raises. *)
Lemma read_source_files_stdout_exactly
    env src_path exclude_dirs include_extensions es :
  stat env (resolve env src_path) = Some (NDir es) →
  wf_entries es = true →
  ∃ st, read_source_files env src_path exclude_dirs include_extensions = Returned st
        ∧ ∀ x,
            x ∈ stdout st
            ↔ ∃ q ch f data,
                walkable (default default_exclude_dirs exclude_dirs) es q = true
                ∧ dir_at es q = Some ch
                ∧ lookup_file ch f = Some data
                ∧ passes_filters env (default default_include_extensions include_extensions)
                    (resolve env src_path) q f = true
                ∧ failure_line (resolve env src_path) (q ++ [f]) data = Some x.
Proof.
  intros Hstat Hwf.
  destruct (read_source_files_lists env src_path exclude_dirs include_extensions
              es Hstat Hwf) as (st & Hst & _ & Hout & _).
  exists st. split; [done|]. intros x. rewrite Hout, elem_of_failed_lines. split.
  - intros (r & l & f & data & Hy & Hf & Hp & Hx).
    apply elem_of_yields in Hy as (q & Heq & Hw & Hat); [|done]. simpl in Heq. subst q.
    exists r, l, f, data. split_and!; [done..| |done|done].
    apply lookup_file_NoDup; [|done].
    apply wf_entries_NoDup. by destruct (wf_entries_dir_at _ _ _ Hwf Hat).
  - intros (q & ch & f & data & Hw & Hat & Hf & Hp & Hx).
    exists q, ch, f, data. split_and!; [|by apply lookup_file_Some_elem|done..].
    apply elem_of_yields; [done|]. by exists q.
Qed.

(** ** The extension that is compared *)

Lemma rfind_dot_no_dot s : contains_char "." s = false → rfind_dot s = None.
Proof.
  induction s as [|c s IH]; simpl; [done|].
  intros [Hc Hs]%orb_false_iff. rewrite (IH Hs).
  apply bool_decide_eq_false in Hc. by rewrite bool_decide_eq_false_2.
Qed.

Lemma rfind_dot_last stem ext :
  contains_char "." ext = false →
  rfind_dot (stem +:+ String "." ext) = Some (String.length stem).
Proof.
  intros Hext. unfold String.app. induction stem as [|c stem IH]; simpl.
  - by rewrite (rfind_dot_no_dot ext Hext).
  - by rewrite IH.
Qed.

Lemma string_length_app s1 s2 :
  String.length (s1 +:+ s2) = String.length s1 + String.length s2.
Proof. unfold String.app. induction s1 as [|c s1 IH]; simpl; [done|]. by rewrite IH. Qed.

Lemma substring_all s : String.substring 0 (String.length s) s = s.
Proof. induction s as [|c s IH]; simpl; [done|]. by rewrite IH. Qed.

Lemma substring_drop s1 s2 :
  String.substring (String.length s1) (String.length s2) (s1 +:+ s2) = s2.
Proof.
  unfold String.app. induction s1 as [|c s1 IH]; simpl; [apply substring_all|done].
Qed.

Lemma suffix_last_dot stem ext :
  stem ≠ "" → ext ≠ "" → contains_char "." ext = false →
  suffix (stem +:+ String "." ext) = String "." ext.
Proof.
  intros Hstem Hext Hno. unfold suffix.
  rewrite (rfind_dot_last stem ext Hno), string_length_app.
  assert (0 < String.length stem) as Hs by (destruct stem; simpl; [done|lia]).
  assert (0 < String.length ext) as He by (destruct ext; simpl; [done|lia]).
  change (String.length (String "." ext)) with (S (String.length ext)).
  rewrite (proj2 (Nat.ltb_lt 0 _)) by lia.
  rewrite (proj2 (Nat.ltb_lt (String.length stem) _)) by lia. simpl.
  replace (String.length stem + S (String.length ext) - String.length stem)
    with (String.length (String "." ext)) by (simpl; lia).
  apply substring_drop.
Qed.

Lemma suffix_no_dot name : contains_char "." name = false → suffix name = "".
Proof. intros Hno. unfold suffix. by rewrite (rfind_dot_no_dot name Hno). Qed.

Lemma suffix_trailing_dot stem : suffix (stem +:+ ".") = "".
Proof.
  unfold suffix. rewrite (rfind_dot_last stem "" eq_refl), string_length_app.
  change (String.length ".") with 1.
  replace (String.length stem + 1 - 1) with (String.length stem) by lia.
  by rewrite Nat.ltb_irrefl, andb_false_r.
Qed.

(** X8. Only what follows the last dot of the name is compared: a name
    [stem.ext] with a stem and with a last part that is not empty passes the
    extension gate exactly when [lower] of the dot with that part is an
    entry of [include_extensions]. *)
Theorem extension_gate_last_dot env include_extensions stem ext :
  stem ≠ "" → ext ≠ "" → contains_char "." ext = false →
  extension_gate env include_extensions (stem +:+ "." +:+ ext) = true
  ↔ lower env ("." +:+ ext) ∈ include_extensions.
Proof.
  intros Hstem Hext Hno. rewrite extension_gate_exact.
  change ("." +:+ ext) with (String "." ext).
  by rewrite (suffix_last_dot stem ext Hstem Hext Hno).
Qed.

Lemma extension_gate_last_dot_witness :
  extension_gate example_env default_include_extensions
    ("jquery.min" +:+ "." +:+ "JS") = true
  ↔ lower example_env ("." +:+ "JS") ∈ default_include_extensions.
Proof.
  apply (extension_gate_last_dot example_env default_include_extensions "jquery.min" "JS").
  - discriminate.
  - discriminate.
  - reflexivity.
Defined.

(** X9. A file whose name has no dot at all, or ends in a dot, has the
    empty suffix and is not collected unless the empty string is itself an
    entry of [include_extensions]. *)
Theorem read_source_files_no_extension
    env src_path exclude_dirs include_extensions es q ch f data :
  stat env (resolve env src_path) = Some (NDir es) →
  wf_entries es = true →
  dir_at es q = Some ch → lookup_file ch f = Some data →
  contains_char "." f = false ∨ (∃ stem, f = stem +:+ ".") →
  "" ∉ default default_include_extensions include_extensions →
  ∃ st, read_source_files env src_path exclude_dirs include_extensions = Returned st
        ∧ str_rel (q ++ [f]) ∉ dict_keys (code_files st).
Proof.
  intros Hstat Hwf Hat Hf Hname Hempty.
  assert (suffix f = "") as Hsuf.
  { destruct Hname as [Hno|[stem ->]]; [by apply suffix_no_dot|apply suffix_trailing_dot]. }
  eexists. split; [by apply read_source_files_dir|].
  apply dict_get_None. apply (walk_get_None _ _ _ _ _ Hwf q ch f data Hat Hf).
  right; left. unfold passes_filters, extension_gate. rewrite Hsuf.
  change (lower env "") with "".
  rewrite (bool_decide_eq_false_2 _ Hempty). by rewrite andb_false_r.
Qed.

Lemma read_source_files_no_extension_witness :
  ∃ st, read_source_files example_env_plain "." None None = Returned st
        ∧ str_rel ([] ++ ["Makefile"]) ∉ dict_keys (code_files st).
Proof.
  apply (read_source_files_no_extension example_env_plain "." None None
           example_tree_plain [] example_tree_plain "Makefile" (ReadOk "all:")).
  - reflexivity.
  - by vm_compute.
  - reflexivity.
  - reflexivity.
  - by left.
  - apply (bool_decide_unpack _). by vm_compute.
Defined.

(** X14. The lock-file test skips exactly the names that equal one of the
    six lock files without regard to case, that is, after [lower]. *)
Theorem lock_gate_exact env f : lock_gate env f = true ↔ lock_file_name env f.
Proof.
  split; [|apply lock_file_name_gate].
  unfold lock_gate, lock_file_name. intros Hin%bool_decide_eq_true.
  apply Exists_exists. exists (lower env f). split; [done|].
  pose proof (lock_files_lower env) as Hlow. rewrite Forall_forall in Hlow.
  by apply Hlow.
Qed.

(** ** The formatter, further *)

Lemma sorted_of_sorted l : StronglySorted tuple_le l → sorted l = l.
Proof.
  intros Hl. apply (StronglySorted_unique tuple_le); [apply sorted_StronglySorted|done|].
  apply sorted_Permutation.
Qed.

(** X6. The sentence for the empty dict is returned for the empty dict
    only: the output for a dict that holds a file starts with a newline. *)
Theorem format_for_sharing_sentinel_iff (code_files : dict) :
  format_for_sharing code_files = "No code files found" ↔ code_files = [].
Proof.
  split; [|by intros ->].
  destruct code_files as [|item rest]; [done|]. intros Hfmt.
  rewrite format_for_sharing_nonempty, join_pieces_blocks in Hfmt by done.
  destruct (sorted (item :: rest)) as [|[k v] l] eqn:Hsorted.
  - pose proof (sorted_Permutation (item :: rest)) as Hperm. rewrite Hsorted in Hperm.
    by apply Permutation_nil_l in Hperm.
  - simpl in Hfmt. unfold nl, String.app in Hfmt. simpl in Hfmt. discriminate.
Qed.

(** X7. Contents are written as they are, so the output does not determine
    the dict: one file whose content goes on with a separator and the header
    of a later path gives the same string as two files. *)
Theorem format_for_sharing_not_injective (a b x y : string) :
  strict String.le a b →
  format_for_sharing [(a, x); (b, y)]
  = format_for_sharing
      [(a, x +:+ nl
             +:+ "================================================================================"
             +:+ nl +:+ nl +:+ "=== " +:+ b +:+ " ===" +:+ nl +:+ y)].
Proof.
  intros Hab. rewrite !format_for_sharing_nonempty, !join_pieces_blocks by done.
  rewrite !sorted_of_sorted.
  - simpl. by rewrite !string_app_assoc, string_app_nil_r.
  - repeat constructor.
  - constructor; [repeat constructor|]. constructor; [|constructor]. by left.
Qed.

Lemma format_for_sharing_not_injective_witness :
  format_for_sharing [("a.py", "x=1"); ("b.py", "y=2")]
  = format_for_sharing
      [("a.py", "x=1" +:+ nl
             +:+ "================================================================================"
             +:+ nl +:+ nl +:+ "=== " +:+ "b.py" +:+ " ===" +:+ nl +:+ "y=2")].
Proof.
  apply (format_for_sharing_not_injective "a.py" "b.py" "x=1" "y=2").
  apply (bool_decide_unpack _). by vm_compute.
Defined.

(** ** The script *)

Example main_example :
  main example_env example_write_ok
  = {| printed := [ "Warning: Could not read /home/proj/latin1.py as text file";
                    "Error reading /home/proj/secret.py: [Errno 13] Permission denied";
                    "Successfully wrote code to source_code_output.txt";
                    "Total files processed: 2" ];
       written := Some ("source_code_output.txt",
                        blocks [("a.py", "x=1"); ("sub/c.md", "hello")]) |}.
Proof. by vm_compute. Qed.

Lemma failure_line_not_success src path data x :
  failure_line src path data = Some x →
  x ≠ "Successfully wrote code to " +:+ output_file.
Proof.
  destruct data as [c| |msg]; simpl; [done|..]; intros [= <-];
    unfold String.app; simpl; discriminate.
Qed.

Lemma read_source_files_stdout_lines env src_path exclude_dirs include_extensions st x :
  read_source_files env src_path exclude_dirs include_extensions = Returned st →
  x ∈ stdout st → ∃ path data, failure_line (resolve env src_path) path data = Some x.
Proof.
  unfold read_source_files.
  destruct (stat env (resolve env src_path)) as [[data|es]|]; intros [= <-];
    [by intros ?%elem_of_nil|].
  rewrite walk_yields.
  destruct (visits_lists env (default default_include_extensions include_extensions)
              (resolve env src_path)
              (yields (default default_exclude_dirs exclude_dirs) [] es) empty_state)
    as [_ ->].
  change (stdout empty_state) with (@nil string). rewrite app_nil_l.
  intros (r & l & f & data & _ & _ & _ & Hx)%elem_of_failed_lines. eauto.
Qed.

(** X10. When the default root does not exist, the script prints one
    line, the error with the resolved path, and writes no file. *)
Theorem main_root_missing env write :
  stat env (resolve env default_src_path) = None →
  main env write
  = {| printed := [ "Error: Source directory not found: "
                      +:+ str_abs (resolve env default_src_path) ];
       written := None |}.
Proof. intros Hstat. unfold main, read_source_files. by rewrite Hstat. Qed.

Lemma main_root_missing_witness :
  main {| resolve := λ _, ["home"; "gone"]; stat := stat example_env;
          guess_type := λ _, None;
     unicode_lower := λ s, s |} example_write_ok
  = {| printed := [ "Error: Source directory not found: "
                      +:+ str_abs ["home"; "gone"] ];
       written := None |}.
Proof.
  apply (main_root_missing
           {| resolve := λ _, ["home"; "gone"]; stat := stat example_env;
              guess_type := λ _, None;
     unicode_lower := λ s, s |} example_write_ok).
  reflexivity.
Defined.

(** X11. When the root is a directory and the write completes, the file
    written is the formatted dict of the collected files, and the lines
    printed are the warnings of the walk, then the success line, then the
    number of collected files. *)
Theorem main_writes_collected env write es :
  stat env (resolve env default_src_path) = Some (NDir es) →
  wf_entries es = true →
  write output_file
    (format_for_sharing
       (collected_items env default_include_extensions (resolve env default_src_path)
          (yields default_exclude_dirs [] es))) = WriteOk →
  main env write
  = {| printed :=
         failed_lines env default_include_extensions (resolve env default_src_path)
           (yields default_exclude_dirs [] es)
         ++ [ "Successfully wrote code to source_code_output.txt";
              "Total files processed: "
                +:+ pretty (length
                      (collected_items env default_include_extensions
                         (resolve env default_src_path)
                         (yields default_exclude_dirs [] es))) ];
       written :=
         Some ("source_code_output.txt",
               format_for_sharing
                 (collected_items env default_include_extensions
                    (resolve env default_src_path)
                    (yields default_exclude_dirs [] es))) |}.
Proof.
  intros Hstat Hwf Hwrite.
  destruct (read_source_files_lists env default_src_path None None es Hstat Hwf)
    as (st & Hst & Hitems & Hout & _).
  change (default default_include_extensions None) with default_include_extensions
    in Hitems, Hout.
  change (default default_exclude_dirs None) with default_exclude_dirs in Hitems, Hout.
  unfold main. rewrite Hst. cbv beta iota zeta. by rewrite Hitems, Hwrite, Hout.
Qed.

Lemma main_writes_collected_witness :
  main example_env example_write_ok
  = {| printed :=
         failed_lines example_env default_include_extensions
           (resolve example_env default_src_path)
           (yields default_exclude_dirs [] example_tree)
         ++ [ "Successfully wrote code to source_code_output.txt";
              "Total files processed: "
                +:+ pretty (length
                      (collected_items example_env default_include_extensions
                         (resolve example_env default_src_path)
                         (yields default_exclude_dirs [] example_tree))) ];
       written :=
         Some ("source_code_output.txt",
               format_for_sharing
                 (collected_items example_env default_include_extensions
                    (resolve example_env default_src_path)
                    (yields default_exclude_dirs [] example_tree))) |}.
Proof.
  apply (main_writes_collected example_env example_write_ok example_tree).
  - reflexivity.
  - by vm_compute.
  - reflexivity.
Defined.

(** X12. When the default root is a regular file, the script reports
    success: it writes the sentence for the empty dict and prints a count
    of zero. *)
Theorem main_root_is_file env write data :
  stat env (resolve env default_src_path) = Some (NFile data) →
  write output_file "No code files found" = WriteOk →
  main env write
  = {| printed := [ "Successfully wrote code to source_code_output.txt";
                    "Total files processed: 0" ];
       written := Some ("source_code_output.txt", "No code files found") |}.
Proof.
  intros Hstat Hwrite. unfold main, read_source_files. rewrite Hstat. simpl.
  by rewrite Hwrite.
Qed.

Lemma main_root_is_file_witness :
  main example_env_file example_write_ok
  = {| printed := [ "Successfully wrote code to source_code_output.txt";
                    "Total files processed: 0" ];
       written := Some ("source_code_output.txt", "No code files found") |}.
Proof.
  apply (main_root_is_file example_env_file example_write_ok (ReadOk "n")).
  - reflexivity.
  - reflexivity.
Defined.

(** X13. The success line is printed exactly when the output file was
    written: no warning of the walk and no error line can be taken for
    it. *)
Theorem main_success_iff_written env write :
  is_Some (written (main env write))
  ↔ "Successfully wrote code to " +:+ output_file ∈ printed (main env write).
Proof.
  unfold main.
  destruct (read_source_files env default_src_path None None) as [st|msg] eqn:Hread.
  - destruct (write output_file (format_for_sharing (code_files st))) as [|msg]; simpl.
    + split; [|by eauto]. intros _. apply elem_of_app. right. apply list_elem_of_here.
    + split; [by intros [? ?]|].
      intros [Hin|Hin%list_elem_of_singleton]%elem_of_app.
      * destruct (read_source_files_stdout_lines _ _ _ _ _ _ Hread Hin)
          as (path & data & Hline).
        by destruct (failure_line_not_success _ _ _ _ Hline).
      * unfold String.app in Hin. simpl in Hin. discriminate.
  - simpl. split; [by intros [? ?]|].
    intros Hin%list_elem_of_singleton. unfold String.app in Hin. simpl in Hin. discriminate.
Qed.

(** ** The walk on a stream that can refuse a line *)

Lemma first_refusal_app out l1 l2 :
  first_refusal out (l1 ++ l2)
  = match first_refusal out l1 with
    | Some msg => Some msg
    | None => first_refusal out l2
    end.
Proof. induction l1 as [|x l1 IH]; simpl; [done|]. by destruct (out x). Qed.

Lemma first_refusal_None out lines :
  first_refusal out lines = None ↔ ∀ x, x ∈ lines → out x = None.
Proof.
  induction lines as [|x lines IH]; simpl.
  - split; [by intros _ y ?%elem_of_nil|done].
  - destruct (out x) eqn:Hx.
    + split; [done|]. intros Hall. rewrite (Hall x) in Hx; [done|apply list_elem_of_here].
    + rewrite IH. split.
      * intros Hall y [->|Hy]%elem_of_cons; [done|by apply Hall].
      * intros Hall y Hy. by apply Hall, list_elem_of_further.
Qed.

Lemma guard_prints_then out l1 l2 st (f : state → state) :
  and_then (guard_prints out l1 st) (λ st', guard_prints out l2 (f st'))
  = guard_prints out (l1 ++ l2) (f st).
Proof.
  unfold guard_prints. rewrite first_refusal_app.
  by destruct (first_refusal out l1).
Qed.

(** Once something is raised, the rest of the loop does not run. *)
Lemma fold_left_Raise {A} (k : A → state → outcome) (l : list A) e :
  fold_left (λ o x, and_then o (λ st, k x st)) l (Raise e) = Raise e.
Proof. induction l as [|x l IH]; simpl; [done|apply IH]. Qed.

Section stream.
Context (out : stream) (env : environment).
Context (exclude_dirs include_extensions src : list string).

Lemma process_file_on_guard rel st file :
  process_file_on out env include_extensions src rel st file
  = guard_prints out (option_list (failed_file env include_extensions src rel file))
      (process_file env include_extensions src rel st file).
Proof.
  unfold process_file_on, process_file, failed_file, passes_filters, guard_prints,
    print_line.
  destruct file as [f data]. simpl.
  destruct (lock_gate env f); [done|].
  destruct (extension_gate env include_extensions f); [|done].
  destruct (mime_rejects env _); [done|].
  destruct data as [c| |msg]; simpl; [done|..]; by destruct (out _).
Qed.

Lemma files_loop_on_guard rel files lines st :
  foldl (λ o file, and_then o
           (λ st, process_file_on out env include_extensions src rel st file))
        (guard_prints out lines st) files
  = guard_prints out
      (lines ++ omap (failed_file env include_extensions src rel) files)
      (foldl (process_file env include_extensions src rel) st files).
Proof.
  revert lines st. induction files as [|file files IH]; intros lines st; simpl.
  - by rewrite app_nil_r.
  - assert (and_then (guard_prints out lines st)
              (λ st, process_file_on out env include_extensions src rel st file)
            = guard_prints out
                (lines ++ option_list (failed_file env include_extensions src rel file))
                (process_file env include_extensions src rel st file)) as ->.
    { unfold guard_prints at 1 2. rewrite first_refusal_app.
      destruct (first_refusal out lines); simpl; [done|].
      by rewrite process_file_on_guard. }
    rewrite IH, <- app_assoc. by destruct (failed_file _ _ _ _ file).
Qed.

Lemma visit_on_guard rel es st :
  visit_on out env include_extensions src rel es st
  = guard_prints out
      (omap (failed_file env include_extensions src rel) (file_entries es))
      (visit env include_extensions src rel es st).
Proof. unfold visit_on, visit. apply (files_loop_on_guard rel (file_entries es) []). Qed.

Lemma failed_lines_cons r l ys :
  failed_lines env include_extensions src ((r, l) :: ys)
  = omap (failed_file env include_extensions src r) (file_entries l)
    ++ failed_lines env include_extensions src ys.
Proof. done. Qed.

Lemma failed_lines_app ys1 ys2 :
  failed_lines env include_extensions src (ys1 ++ ys2)
  = failed_lines env include_extensions src ys1
    ++ failed_lines env include_extensions src ys2.
Proof. unfold failed_lines. apply bind_app. Qed.

Lemma walk_into_on_guard e : ∀ rel dirs lines st,
  and_then (guard_prints out lines st)
    (λ st, walk_into_on out env exclude_dirs include_extensions src rel dirs e st)
  = guard_prints out
      (lines ++ failed_lines env include_extensions src
                  (yields_into exclude_dirs rel dirs e))
      (walk_into env exclude_dirs include_extensions src rel dirs e st).
Proof.
  induction e as [f data|d ch IH] using entry_ind'; intros rel dirs lines st.
  - simpl. rewrite app_nil_r. unfold guard_prints. by destruct (first_refusal out lines).
  - rewrite yields_into_Dir. simpl. case_bool_decide as Hd.
    2:{ rewrite app_nil_r. unfold guard_prints. by destruct (first_refusal out lines). }
    unfold yields. rewrite failed_lines_cons, app_assoc.
    assert (and_then (guard_prints out lines st)
              (λ st, fold_left
                 (λ o e', and_then o
                    (λ st, walk_into_on out env exclude_dirs include_extensions src
                             (rel ++ [d]) (prune_dirs exclude_dirs ch) e' st))
                 ch (visit_on out env include_extensions src (rel ++ [d]) ch st))
            = fold_left
                 (λ o e', and_then o
                    (λ st, walk_into_on out env exclude_dirs include_extensions src
                             (rel ++ [d]) (prune_dirs exclude_dirs ch) e' st))
                 ch
                 (guard_prints out
                    (lines ++ omap (failed_file env include_extensions src (rel ++ [d]))
                                (file_entries ch))
                    (visit env include_extensions src (rel ++ [d]) ch st))) as ->.
    { unfold guard_prints at 1 2. rewrite first_refusal_app.
      destruct (first_refusal out lines) as [msg|]; simpl; [|by rewrite visit_on_guard].
      symmetry.
      apply (fold_left_Raise
               (λ e' st, walk_into_on out env exclude_dirs include_extensions src
                           (rel ++ [d]) (prune_dirs exclude_dirs ch) e' st)). }
    generalize (lines ++ omap (failed_file env include_extensions src (rel ++ [d]))
                          (file_entries ch)) as lines'.
    generalize (visit env include_extensions src (rel ++ [d]) ch st) as st'.
    generalize (prune_dirs exclude_dirs ch) as dirs'. intros dirs'.
    induction IH as [|e ch He _ IHch]; intros st' lines'; simpl.
    + by rewrite app_nil_r.
    + rewrite He, IHch, failed_lines_app, app_assoc. done.
Qed.

Lemma walk_on_guard rel es st :
  walk_on out env exclude_dirs include_extensions src rel es st
  = guard_prints out
      (failed_lines env include_extensions src (yields exclude_dirs rel es))
      (walk env exclude_dirs include_extensions src rel es st).
Proof.
  unfold walk_on, walk, yields. rewrite failed_lines_cons, visit_on_guard.
  generalize (omap (failed_file env include_extensions src rel) (file_entries es))
    as lines.
  generalize (visit env include_extensions src rel es st) as st'.
  generalize (prune_dirs exclude_dirs es) as dirs. intros dirs.
  induction es as [|e es IH]; intros st' lines; simpl.
  - by rewrite app_nil_r.
  - rewrite walk_into_on_guard, IH, failed_lines_app, app_assoc. done.
Qed.
End stream.

(** The call on a stream is the call on a stream that takes every line,
    cut short at the first line that the stream refuses. *)
Lemma read_source_files_on_guard out env src_path exclude_dirs include_extensions :
  read_source_files_on out env src_path exclude_dirs include_extensions
  = match read_source_files env src_path exclude_dirs include_extensions with
    | Returned st => guard_prints out (stdout st) st
    | RaisedFileNotFoundError msg => Raise (FileNotFoundError msg)
    end.
Proof.
  unfold read_source_files_on, read_source_files.
  destruct (stat env (resolve env src_path)) as [[data|es]|]; [done| |done].
  rewrite walk_on_guard. f_equal. rewrite walk_yields.
  destruct (visits_lists env (default default_include_extensions include_extensions)
              (resolve env src_path)
              (yields (default default_exclude_dirs exclude_dirs) [] es) empty_state)
    as [_ ->].
  done.
Qed.

(** Where the stream takes those lines, the call on the stream returns
    what the call on a stream that takes every line returns. *)
Lemma read_source_files_on_returns
    out env src_path exclude_dirs include_extensions es :
  stat env (resolve env src_path) = Some (NDir es) →
  wf_entries es = true →
  takes_failure_lines out env (default default_exclude_dirs exclude_dirs)
    (default default_include_extensions include_extensions) (resolve env src_path) es →
  ∃ st, read_source_files_on out env src_path exclude_dirs include_extensions = Return st
        ∧ read_source_files env src_path exclude_dirs include_extensions = Returned st.
Proof.
  intros Hstat Hwf Hout.
  destruct (read_source_files_stdout_exactly env src_path exclude_dirs
              include_extensions es Hstat Hwf) as (st & Hst & Hlines).
  exists st. split; [|done].
  rewrite read_source_files_on_guard, Hst. unfold guard_prints.
  assert (first_refusal out (stdout st) = None) as ->; [|done].
  apply first_refusal_None. intros x (q & ch & f & data & Hw & Hat & Hf & Hp & Hx)%Hlines.
  by apply (Hout q ch f data).
Qed.

Lemma example_stream_all_takes env exclude_dirs include_extensions src es :
  takes_failure_lines example_stream_all env exclude_dirs include_extensions src es.
Proof. by intros q ch f data x. Qed.

(** X1. Where the stream takes the lines of the walk, the call returns, and
    the dict maps a key to a content exactly when the key is the relative
    path of a file that lies below directories that all survive the
    pruning, passes the three filters and is read with that content. *)
Theorem read_source_files_collects_exactly
    out env src_path exclude_dirs include_extensions es :
  stat env (resolve env src_path) = Some (NDir es) →
  wf_entries es = true →
  takes_failure_lines out env (default default_exclude_dirs exclude_dirs)
    (default default_include_extensions include_extensions) (resolve env src_path) es →
  ∃ st, read_source_files_on out env src_path exclude_dirs include_extensions = Return st
        ∧ ∀ k c,
            dict_get k (code_files st) = Some c
            ↔ ∃ q ch f,
                walkable (default default_exclude_dirs exclude_dirs) es q = true
                ∧ dir_at es q = Some ch
                ∧ lookup_file ch f = Some (ReadOk c)
                ∧ passes_filters env (default default_include_extensions include_extensions)
                    (resolve env src_path) q f = true
                ∧ k = str_rel (q ++ [f]).
Proof.
  intros Hstat Hwf Hout.
  destruct (read_source_files_on_returns out env src_path exclude_dirs
              include_extensions es Hstat Hwf Hout) as (st & Hon & Hst).
  exists st. split; [done|].
  rewrite (read_source_files_dir _ _ _ _ _ Hstat) in Hst. injection Hst as <-.
  intros k c. split.
  - by apply walk_get_sound.
  - intros (q & ch & f & Hw & Hat & Hf & Hp & ->). by apply (walk_get_Some _ _ _ _ _ Hwf q ch).
Qed.

Lemma read_source_files_collects_exactly_witness :
  ∃ st, read_source_files_on example_stream_all example_env "proj" None None = Return st
        ∧ ∀ k c,
            dict_get k (code_files st) = Some c
            ↔ ∃ q ch f,
                walkable (default default_exclude_dirs None) example_tree q = true
                ∧ dir_at example_tree q = Some ch
                ∧ lookup_file ch f = Some (ReadOk c)
                ∧ passes_filters example_env (default default_include_extensions None)
                    (resolve example_env "proj") q f = true
                ∧ k = str_rel (q ++ [f]).
Proof.
  apply (read_source_files_collects_exactly example_stream_all example_env "proj"
           None None example_tree).
  - reflexivity.
  - by vm_compute.
  - apply example_stream_all_takes.
Defined.

(** X5. Where the stream takes the lines of the walk, the dict holds the
    collected files in the order of the walk, the files of a directory in
    listing order before those of the directories below it, each once: no
    assignment replaces an earlier one. *)
Theorem read_source_files_walk_order
    out env src_path exclude_dirs include_extensions es :
  stat env (resolve env src_path) = Some (NDir es) →
  wf_entries es = true →
  takes_failure_lines out env (default default_exclude_dirs exclude_dirs)
    (default default_include_extensions include_extensions) (resolve env src_path) es →
  ∃ st, read_source_files_on out env src_path exclude_dirs include_extensions = Return st
        ∧ code_files st
          = collected_items env (default default_include_extensions include_extensions)
              (resolve env src_path)
              (yields (default default_exclude_dirs exclude_dirs) [] es)
        ∧ visited st = (yields (default default_exclude_dirs exclude_dirs) [] es).*1.
Proof.
  intros Hstat Hwf Hout.
  destruct (read_source_files_on_returns out env src_path exclude_dirs
              include_extensions es Hstat Hwf Hout) as (st & Hon & Hst).
  destruct (read_source_files_lists env src_path exclude_dirs include_extensions
              es Hstat Hwf) as (st' & Hst' & Hitems & _ & Hvis).
  rewrite Hst in Hst'. injection Hst' as <-. by exists st.
Qed.

Lemma read_source_files_walk_order_witness :
  ∃ st, read_source_files_on example_stream_all example_env "proj" None None = Return st
        ∧ code_files st
          = collected_items example_env (default default_include_extensions None)
              (resolve example_env "proj")
              (yields (default default_exclude_dirs None) [] example_tree)
        ∧ visited st = (yields (default default_exclude_dirs None) [] example_tree).*1.
Proof.
  apply (read_source_files_walk_order example_stream_all example_env "proj"
           None None example_tree).
  - reflexivity.
  - by vm_compute.
  - apply example_stream_all_takes.
Defined.

(** X4. Where the stream takes the line of every file that gets as far as
    [open] and whose read raises, the call returns, and a line is printed
    exactly for those files, the warning or the error line of each: files
    that are pruned away or filtered out print nothing. *)
Theorem read_source_files_on_prints_exactly
    out env src_path exclude_dirs include_extensions es :
  stat env (resolve env src_path) = Some (NDir es) →
  wf_entries es = true →
  takes_failure_lines out env (default default_exclude_dirs exclude_dirs)
    (default default_include_extensions include_extensions) (resolve env src_path) es →
  ∃ st, read_source_files_on out env src_path exclude_dirs include_extensions = Return st
        ∧ ∀ x,
            x ∈ stdout st
            ↔ ∃ q ch f data,
                walkable (default default_exclude_dirs exclude_dirs) es q = true
                ∧ dir_at es q = Some ch
                ∧ lookup_file ch f = Some data
                ∧ passes_filters env (default default_include_extensions include_extensions)
                    (resolve env src_path) q f = true
                ∧ failure_line (resolve env src_path) (q ++ [f]) data = Some x.
Proof.
  intros Hstat Hwf Hout.
  destruct (read_source_files_on_returns out env src_path exclude_dirs
              include_extensions es Hstat Hwf Hout) as (st & Hon & Hst).
  destruct (read_source_files_stdout_exactly env src_path exclude_dirs
              include_extensions es Hstat Hwf) as (st' & Hst' & Hlines).
  rewrite Hst in Hst'. injection Hst' as <-. by exists st.
Qed.

Lemma read_source_files_on_prints_exactly_witness :
  ∃ st, read_source_files_on example_stream_all example_env "proj" None None = Return st
        ∧ ∀ x,
            x ∈ stdout st
            ↔ ∃ q ch f data,
                walkable (default default_exclude_dirs None) example_tree q = true
                ∧ dir_at example_tree q = Some ch
                ∧ lookup_file ch f = Some data
                ∧ passes_filters example_env (default default_include_extensions None)
                    (resolve example_env "proj") q f = true
                ∧ failure_line (resolve example_env "proj") (q ++ [f]) data = Some x.
Proof.
  apply (read_source_files_on_prints_exactly example_stream_all example_env "proj"
           None None example_tree).
  - reflexivity.
  - by vm_compute.
  - apply example_stream_all_takes.
Defined.

(** X15. When the stream refuses the line of a file that gets as far as
    [open] and whose read raises, the exception of [print] leaves
    [read_source_files]: no dict is returned. *)
Theorem read_source_files_on_refused_line
    out env src_path exclude_dirs include_extensions es q ch f data x msg :
  stat env (resolve env src_path) = Some (NDir es) →
  wf_entries es = true →
  walkable (default default_exclude_dirs exclude_dirs) es q = true →
  dir_at es q = Some ch → lookup_file ch f = Some data →
  passes_filters env (default default_include_extensions include_extensions)
    (resolve env src_path) q f = true →
  failure_line (resolve env src_path) (q ++ [f]) data = Some x →
  out x = Some msg →
  ∃ msg', read_source_files_on out env src_path exclude_dirs include_extensions
          = Raise (PrintError msg').
Proof.
  intros Hstat Hwf Hw Hat Hf Hp Hx Hrefused.
  destruct (read_source_files_stdout_exactly env src_path exclude_dirs
              include_extensions es Hstat Hwf) as (st & Hst & Hlines).
  rewrite read_source_files_on_guard, Hst. unfold guard_prints.
  destruct (first_refusal out (stdout st)) as [msg'|] eqn:Hfirst; [by exists msg'|].
  rewrite first_refusal_None in Hfirst.
  rewrite (Hfirst x) in Hrefused; [done|].
  apply Hlines. by exists q, ch, f, data.
Qed.

Lemma read_source_files_on_refused_line_witness :
  ∃ msg', read_source_files_on example_stream_ascii example_env_latin1 "." None None
          = Raise (PrintError msg').
Proof.
  apply (read_source_files_on_refused_line example_stream_ascii example_env_latin1 "."
           None None example_tree_latin1 [] example_tree_latin1
           ("caf" +:+ String "233"%char ".py") ReadUnicodeDecodeError
           ("Warning: Could not read /home/legacy/caf" +:+ String "233"%char ".py as text file")
           "'ascii' codec can't encode character: ordinal not in range(128)").
  - reflexivity.
  - by vm_compute.
  - reflexivity.
  - reflexivity.
  - reflexivity.
  - by vm_compute.
  - reflexivity.
  - reflexivity.
Defined.

(** C8 fails on the code.  In a directory that holds two readable Python
    files and one with undecodable content whose name the stream cannot
    encode, the warning for that file is refused inside the [except]
    clause: the call raises, and the two files that passed all filters and
    were read are lost with it.  On a stream that takes the line, the same
    directory gives both files and the warning. *)
Theorem read_source_files_on_print_error_loses_walk :
  read_source_files_on example_stream_ascii example_env_latin1 "." None None
  = Raise (PrintError "'ascii' codec can't encode character: ordinal not in range(128)")
  ∧ lookup_file example_tree_latin1 "a.py" = Some (ReadOk "x=1")
  ∧ passes_filters example_env_latin1 default_include_extensions
      (resolve example_env_latin1 ".") [] "a.py" = true
  ∧ lookup_file example_tree_latin1 "b.py" = Some (ReadOk "y=2")
  ∧ passes_filters example_env_latin1 default_include_extensions
      (resolve example_env_latin1 ".") [] "b.py" = true
  ∧ read_source_files_on example_stream_all example_env_latin1 "." None None
    = Return
        {| code_files := [("a.py", "x=1"); ("b.py", "y=2")];
           stdout := [ "Warning: Could not read /home/legacy/caf"
                         +:+ String "233"%char ".py as text file" ];
           visited := [[]] |}.
Proof. by vm_compute. Qed.
